(** * MyChat: the WebSocket relay of [server.js], embedded and verified

    The server keeps three pieces of state: the in-memory mirror [db] of
    [db.json] (accounts and conversations), the connection registry
    [clients] (a JS [Map] from user code to socket) and what it has done to
    the outside world (writes of [db.json], frames sent on sockets).  The
    handlers are embedded as computations in a small state-and-exception
    monad over that state; the three sources of values the server does not
    compute itself ([uuidv4()], [new Date().toISOString()] and
    [Math.random().toString(36)]) are sequences of the environment.

    JS strings are modelled by [string] (sequences of 8-bit code units,
    compared as [sort] compares them).  An inbound frame is JSON text: it
    may be unparsable, carry any [type] or none, and have a payload or
    none; each field of a payload is a string or is missing, in which
    case the handler reads [undefined].  Objects used as tables keep what
    matters of a JS object: the enumeration order of [Object.keys], the
    properties inherited from [Object.prototype], and [undefined] used as
    a key. *)

From Stdlib Require Import Ascii NArith.
From Stdlib Require String.
From stdpp Require Import base strings list gmap.

(** ** JavaScript values and helpers *)

(** The value of a field read from a payload: a string, or [undefined]
    when the field is missing.  A string is read as that value. *)
Inductive field :=
| Absent
| Str (s : string).

Coercion Str : string >-> field.

#[global] Instance field_eq_dec : EqDecision field.
Proof. solve_decision. Defined.

(** [a === b]. *)
Definition field_eqb (a b : field) : bool :=
  match a, b with
  | Absent, Absent => true
  | Str s, Str t => String.eqb s t
  | _, _ => false
  end.

(** The property name a value is when used as a key, [o[v]]. *)
Definition prop_key (v : field) : string :=
  match v with
  | Absent => "undefined"
  | Str s => s
  end.

Module JS.

(** [String.prototype.toUpperCase] on the ASCII letters.  The server only
    applies it to a radix-36 numeral. *)
Definition upper_ascii (c : ascii) : ascii :=
  let n := nat_of_ascii c in
  if (97 <=? n)%nat && (n <=? 122)%nat then ascii_of_nat (n - 32) else c.

Fixpoint toUpperCase (s : string) : string :=
  match s with
  | EmptyString => EmptyString
  | String c r => String (upper_ascii c) (toUpperCase r)
  end.

(** [s.substring(start, stop)] for [start <= stop]: the characters at the
    positions [start .. stop-1] that exist. *)
Definition substring (s : string) (start stop : nat) : string :=
  String.substring start (stop - start) s.

(** The order of [Array.prototype.sort()] without comparator: strings
    ascending by code units, [undefined] after every string. *)
Definition before (a b : field) : bool :=
  match a, b with
  | Str s, Str t => String.ltb s t
  | Str _, Absent => true
  | Absent, _ => false
  end.

(** [Array.prototype.sort()] without comparator, stable. *)
Fixpoint sort_insert (x : field) (l : list field) : list field :=
  match l with
  | [] => [x]
  | y :: r => if before y x then y :: sort_insert x r else x :: l
  end.

Definition sort (l : list field) : list field := foldr sort_insert [] l.

(** [Array.prototype.join(sep)]: [undefined] is joined as the empty
    string. *)
Definition text_of (v : field) : string :=
  match v with
  | Absent => ""
  | Str s => s
  end.

Definition join (sep : string) (l : list field) : string :=
  String.concat sep (map text_of l).

(** The property names every plain object inherits from
    [Object.prototype]: [o[k]] is truthy for them although [o] has no own
    property [k]. *)
Definition object_prototype_keys : list string :=
  [ "constructor"; "__defineGetter__"; "__defineSetter__"; "hasOwnProperty";
    "__lookupGetter__"; "__lookupSetter__"; "isPrototypeOf";
    "propertyIsEnumerable"; "toString"; "valueOf"; "__proto__";
    "toLocaleString" ].

(** An array index is a canonical decimal numeral below [2^32 - 1]; own
    properties with such names are enumerated first, in numeric order. *)
Definition digit_of (c : ascii) : option N :=
  let n := N_of_ascii c in
  if (48 <=? n)%N && (n <=? 57)%N then Some (n - 48)%N else None.

Fixpoint digits_value (acc : N) (s : string) : option N :=
  match s with
  | EmptyString => Some acc
  | String c r =>
      match digit_of c with
      | Some d => digits_value (10 * acc + d)%N r
      | None => None
      end
  end.

Definition array_index (k : string) : option N :=
  match k with
  | EmptyString => None
  | String "0"%char EmptyString => Some 0%N
  | String "0"%char _ => None
  | _ =>
      if (String.length k <=? 10)%nat then
        match digits_value 0 k with
        | Some n => if (n <? 4294967295)%N then Some n else None
        | None => None
        end
      else None
  end.

End JS.

(** ** Data model *)

(** A socket ([ws]) is known by its identity only. *)
Definition conn := nat.

(** A stored message: [sender], [receiver] and [text] are whatever the
    sendMessage payload had. *)
Record message := Message {
  id : string;
  sender : field;
  receiver : field;
  text : field;
  timestamp : string;
  read : bool;
}.

(** A stored account: [password] is whatever the signup payload had, the
    contacts are the codes pushed by addContact. *)
Record user := User {
  password : field;
  userCode : string;
  contacts : list field;
}.

(** [db.users] is a plain object: the list holds its own properties in the
    order [Object.keys] enumerates them.  [db.chats] is only ever read and
    written by key. *)
Record database := Database {
  users : list (string * user);
  chats : gmap string (list message);
}.

#[global] Instance message_eq_dec : EqDecision message.
Proof. solve_decision. Defined.
#[global] Instance user_eq_dec : EqDecision user.
Proof. solve_decision. Defined.

(** One element of the [contactList] payload. [username] is [undefined]
    when no account has the contact's code. *)
Record contactDetail := ContactDetail {
  cd_username : option string;
  cd_userCode : string;
  cd_isOnline : bool;
  cd_unreadCount : nat;
}.

(** The frames the server sends: [{type, payload}]. *)
Inductive envelope :=
| EError (msg : string)
| ESignupSuccess (code : string)
| ELoginSuccess (username code : field)
| EContactList (details : list contactDetail)
| EChatHistory (messages : list message) (withUser : field) (isOnline : bool)
| ENewMessage (m : message)
| EMessageSent (m : message)
| ETyping (typer : field)
| EReadReceipt (messageId reader : field)
| EOnlineStatus (code : field) (isOnline : bool).

Definition envelope_type (e : envelope) : string :=
  match e with
  | EError _ => "error"
  | ESignupSuccess _ => "signupSuccess"
  | ELoginSuccess _ _ => "loginSuccess"
  | EContactList _ => "contactList"
  | EChatHistory _ _ _ => "chatHistory"
  | ENewMessage _ => "newMessage"
  | EMessageSent _ => "messageSent"
  | ETyping _ => "typing"
  | EReadReceipt _ _ => "readReceipt"
  | EOnlineStatus _ _ => "onlineStatus"
  end.

(** What the server does to the outside, in the order it does it:
    [fs.writeFileSync(DB_PATH, JSON.stringify(db))] with the database as it
    is at that moment, and [ws.send] of a frame on a socket.  [saveDatabase]
    catches and logs a failure of the write, so the handler goes on in
    the same way whether the write succeeded or not. *)
Inductive effect :=
| Saved (snapshot : database)
| Sent (to : conn) (e : envelope).

(** The values the server draws from outside: the k-th result of
    [uuidv4()], of [new Date().toISOString()] and of
    [Math.random().toString(36)]. *)
Record environment := Environment {
  uuid_seq : nat -> string;
  clock_seq : nat -> string;
  random_seq : nat -> string;
}.

Record world := World {
  db : database;
  clients : list (field * conn);
  wsUserCode : gmap conn field;
  trace : list effect;
  env : environment;
  n_uuid : nat;
  n_clock : nat;
  n_random : nat;
}.

Definition set_db (d : database) (w : world) : world :=
  World d (clients w) (wsUserCode w) (trace w) (env w)
        (n_uuid w) (n_clock w) (n_random w).

Definition set_clients (c : list (field * conn)) (w : world) : world :=
  World (db w) c (wsUserCode w) (trace w) (env w)
        (n_uuid w) (n_clock w) (n_random w).

Definition set_wsUserCode (u : gmap conn field) (w : world) : world :=
  World (db w) (clients w) u (trace w) (env w)
        (n_uuid w) (n_clock w) (n_random w).

Definition log (e : effect) (w : world) : world :=
  World (db w) (clients w) (wsUserCode w) (trace w ++ [e]) (env w)
        (n_uuid w) (n_clock w) (n_random w).

Definition tick_uuid (w : world) : world :=
  World (db w) (clients w) (wsUserCode w) (trace w) (env w)
        (S (n_uuid w)) (n_clock w) (n_random w).

Definition tick_clock (w : world) : world :=
  World (db w) (clients w) (wsUserCode w) (trace w) (env w)
        (n_uuid w) (S (n_clock w)) (n_random w).

Definition tick_random (w : world) : world :=
  World (db w) (clients w) (wsUserCode w) (trace w) (env w)
        (n_uuid w) (n_clock w) (S (n_random w)).

(** ** The property tables *)

(** Own property of [db.users]. *)
Fixpoint users_own (us : list (string * user)) (k : string) : option user :=
  match us with
  | [] => None
  | (k', u) :: r => if String.eqb k' k then Some u else users_own r k
  end.

(** The value of the expression [db.users[k]]. *)
Inductive property :=
| OwnUser (u : user)
| Inherited
| Undefined.

Definition users_get (us : list (string * user)) (k : string) : property :=
  match users_own us k with
  | Some u => OwnUser u
  | None =>
      if bool_decide (k ∈ JS.object_prototype_keys) then Inherited
      else Undefined
  end.

Definition truthy (p : property) : bool :=
  match p with Undefined => false | _ => true end.

(** [user.password] and [user.userCode] of such a value: the members of
    [Object.prototype] have neither property. *)
Definition password_of (p : property) : field :=
  match p with
  | OwnUser u => password u
  | _ => Absent
  end.

Definition userCode_of (p : property) : field :=
  match p with
  | OwnUser u => userCode u
  | _ => Absent
  end.

(** Where a new own property lands in the enumeration order. *)
Fixpoint users_add (k : string) (u : user) (us : list (string * user))
  : list (string * user) :=
  match us with
  | [] => [(k, u)]
  | (k', u') :: r =>
      match JS.array_index k, JS.array_index k' with
      | Some n, Some n' =>
          if (n <? n')%N then (k, u) :: us else (k', u') :: users_add k u r
      | Some _, None => (k, u) :: us
      | None, _ => (k', u') :: users_add k u r
      end
  end.

Fixpoint users_replace (k : string) (u : user) (us : list (string * user))
  : list (string * user) :=
  match us with
  | [] => []
  | (k', u') :: r =>
      if String.eqb k' k then (k', u) :: r else (k', u') :: users_replace k u r
  end.

(** The assignment [db.users[k] = u]; also stands for a mutation inside
    the object stored under the own key [k]. *)
Definition users_set (k : string) (u : user) (us : list (string * user))
  : list (string * user) :=
  match users_own us k with
  | Some _ => users_replace k u us
  | None => users_add k u us
  end.

(** [Object.keys(db.users).find((u) => db.users[u].userCode === code)]. *)
Definition find_username (us : list (string * user)) (code : field)
  : option string :=
  List.find
    (λ k, match users_own us k with
          | Some u => field_eqb (userCode u) code
          | None => false
          end) (map fst us).

(** A property key made from the result of [find]: [undefined] becomes
    the name ["undefined"]. *)
Definition key_of (k : option string) : string := default "undefined" k.

(** [!name] for the result of [find]: [undefined] and the empty string
    are falsy. *)
Definition falsy_name (k : option string) : bool :=
  match k with
  | None => true
  | Some s => String.eqb s ""
  end.

(** The registry [clients], a [Map] in insertion order; [undefined] can
    be a key. *)
Fixpoint clients_get (cs : list (field * conn)) (code : field)
  : option conn :=
  match cs with
  | [] => None
  | (k, c) :: r => if field_eqb k code then Some c else clients_get r code
  end.

Definition clients_has (cs : list (field * conn)) (code : field) : bool :=
  bool_decide (is_Some (clients_get cs code)).

Fixpoint clients_set (code : field) (c : conn) (cs : list (field * conn))
  : list (field * conn) :=
  match cs with
  | [] => [(code, c)]
  | (k, c') :: r =>
      if field_eqb k code then (k, c) :: r
      else (k, c') :: clients_set code c r
  end.

Fixpoint clients_delete (code : field) (cs : list (field * conn))
  : list (field * conn) :=
  match cs with
  | [] => []
  | (k, c') :: r =>
      if field_eqb k code then r else (k, c') :: clients_delete code r
  end.


(** [db.users[name]] where [name] is the result of [find] over the own
    keys of [db.users]: an own key, or [undefined], which reads the
    property called ["undefined"].  Such a key never names a property of
    [Object.prototype] alone (see [users_get_found]). *)
Definition users_at (us : list (string * user)) (name : option string)
  : option user :=
  users_own us (key_of name).

(** [getChatKey]: [[userCode1, userCode2].sort().join("-")]. *)
Definition getChatKey (userCode1 userCode2 : field) : string :=
  JS.join "-" (JS.sort [userCode1; userCode2]).

(** ** The monad of the handlers *)

(** A handler runs to its end, throws a JS exception, or (in the model
    only) is cut off in the code-generation loop. *)
Inductive outcome (A : Type) :=
| Done (a : A)
| Thrown (e : string)
| OutOfFuel.
Arguments Done {A} a.
Arguments Thrown {A} e.
Arguments OutOfFuel {A}.

Definition M (A : Type) : Type := world → outcome A * world.

#[global] Instance M_ret : MRet M := λ A a w, (Done a, w).

#[global] Instance M_bind : MBind M := λ A B f m w,
  match m w with
  | (Done a, w') => f a w'
  | (Thrown e, w') => (Thrown e, w')
  | (OutOfFuel, w') => (OutOfFuel, w')
  end.

Definition gets {A} (f : world → A) : M A := λ w, (Done (f w), w).
Definition modify (f : world → world) : M unit := λ w, (Done tt, f w).
Definition throw {A} (e : string) : M A := λ w, (Thrown e, w).
Definition out_of_fuel {A} : M A := λ w, (OutOfFuel, w).

Fixpoint forEach {A} (l : list A) (f : A → M unit) : M unit :=
  match l with
  | [] => mret tt
  | x :: r => f x;; forEach r f
  end.

(** [ws.send(JSON.stringify(e))]. *)
Definition ws_send (ws : conn) (e : envelope) : M unit :=
  modify (log (Sent ws e)).

(** [saveDatabase]: the whole of [db] is written out. *)
Definition saveDatabase : M unit :=
  modify (λ w, log (Saved (db w)) w).

Definition uuidv4 : M string :=
  λ w, (Done (uuid_seq (env w) (n_uuid w)), tick_uuid w).

Definition toISOString_now : M string :=
  λ w, (Done (clock_seq (env w) (n_clock w)), tick_clock w).

Definition random_toString36 : M string :=
  λ w, (Done (random_seq (env w) (n_random w)), tick_random w).

Definition set_users (us : list (string * user)) : M unit :=
  modify (λ w, set_db (Database us (chats (db w))) w).

Definition set_chats (cs : gmap string (list message)) : M unit :=
  modify (λ w, set_db (Database (users (db w)) cs) w).

(** ** The server *)

(** [generateUserCode]: the [do ... while (existingCodes.has(code))] loop,
    one draw of [Math.random()] per turn. *)
Fixpoint generateUserCode_loop (fuel : nat) (existingCodes : gset string)
  : M string :=
  match fuel with
  | 0 => out_of_fuel
  | S fuel' =>
      r ← random_toString36;
      let code := JS.toUpperCase (JS.substring r 2 8) in
      if bool_decide (code ∈ existingCodes)
      then generateUserCode_loop fuel' existingCodes
      else mret code
  end.

Definition existing_codes (us : list (string * user)) : gset string :=
  list_to_set (map (λ p, userCode p.2) us).

Definition generateUserCode (fuel : nat) : M string :=
  us ← gets (λ w, users (db w));
  generateUserCode_loop fuel (existing_codes us).

(** The unread count of [sendContactListUpdate]:
    [chat.filter((m) => m.receiver === userCode && !m.read).length]. *)
Definition unread_for (code : field) (m : message) : Prop :=
  receiver m = code ∧ read m = false.

#[global] Instance unread_for_dec code m : Decision (unread_for code m).
Proof. unfold unread_for. apply _. Defined.

Definition unreadCount (d : database) (code contactCode : field) : nat :=
  let chat := default [] (chats d !! getChatKey code contactCode) in
  length (filter (unread_for code) chat).

(** The callback of [user.contacts.map] in [sendContactListUpdate]. *)
Definition contactDetail_of (d : database) (cs : list (field * conn))
    (code contactCode : field) : option contactDetail :=
  let contactUsername := find_username (users d) contactCode in
  match users_at (users d) contactUsername with
  | None => None
  | Some contact =>
      Some {| cd_username := contactUsername;
              cd_userCode := userCode contact;
              cd_isOnline := clients_has cs (userCode contact);
              cd_unreadCount := unreadCount d code contactCode |}
  end.

Definition sendContactListUpdate (code : field) : M unit :=
  cs ← gets clients;
  match clients_get cs code with
  | None => mret tt
  | Some ws =>
      d ← gets db;
      let username := find_username (users d) code in
      match users_at (users d) username with
      | None => mret tt
      | Some u =>
          let contactDetails := omap (contactDetail_of d cs code) (contacts u) in
          ws_send ws (EContactList contactDetails)
      end
  end.

(** The callback of [user.contacts.forEach] in [broadcastOnlineStatus]. *)
Definition notify_contact (code : field) (isOnline : bool)
    (contactCode : field) : M unit :=
  cs ← gets clients;
  match clients_get cs contactCode with
  | Some contactWs =>
      ws_send contactWs (EOnlineStatus code isOnline);;
      sendContactListUpdate contactCode
  | None => mret tt
  end.

Definition broadcastOnlineStatus (code : field) (isOnline : bool) : M unit :=
  d ← gets db;
  let username := find_username (users d) code in
  if falsy_name username then mret tt
  else
    match users_at (users d) username with
    | None => throw "TypeError"
    | Some u => forEach (contacts u) (notify_contact code isOnline)
    end.

Definition sendLoginSuccess (ws : conn) (username code : field) : M unit :=
  ws_send ws (ELoginSuccess username code);;
  sendContactListUpdate code.

Definition handleSignup (fuel : nat) (username password : field) (ws : conn)
  : M unit :=
  d ← gets db;
  if truthy (users_get (users d) (prop_key username))
  then ws_send ws (EError "Username already exists.")
  else
    code ← generateUserCode fuel;
    set_users (users_set (prop_key username) (User password code [])
                 (users d));;
    saveDatabase;;
    ws_send ws (ESignupSuccess code).

(** [clients.set(code, ws); ws.userCode = code]. *)
Definition bind_connection (code : field) (ws : conn) : M unit :=
  modify (λ w, set_clients (clients_set code ws (clients w)) w);;
  modify (λ w, set_wsUserCode (<[ws := code]> (wsUserCode w)) w).

(** The guard is [!user || user.password !== password]: a user name that
    [Object.prototype] answers for passes it when the payload has no
    password, and the socket is then bound under [undefined]. *)
Definition handleLogin (username password : field) (ws : conn) : M unit :=
  d ← gets db;
  let user := users_get (users d) (prop_key username) in
  if negb (truthy user) || negb (field_eqb (password_of user) password)
  then ws_send ws (EError "Invalid username or password.")
  else
    bind_connection (userCode_of user) ws;;
    sendLoginSuccess ws username (userCode_of user);;
    broadcastOnlineStatus (userCode_of user) true.

(** The guard is [!user || user.userCode !== userCode]; the socket is
    bound under the payload's code. *)
Definition handleReconnect (username code : field) (ws : conn) : M unit :=
  d ← gets db;
  let user := users_get (users d) (prop_key username) in
  if negb (truthy user) || negb (field_eqb (userCode_of user) code)
  then ws_send ws (EError "Reconnect failed. Please log in again.")
  else
    bind_connection code ws;;
    sendLoginSuccess ws username code;;
    broadcastOnlineStatus code true.

(** [if (!db.users[name].contacts.includes(code))
       db.users[name].contacts.push(code)]: reading [.contacts] of
    [undefined] throws. *)
Definition push_contact (name : option string) (code : field) : M unit :=
  us ← gets (λ w, users (db w));
  match users_at us name with
  | None => throw "TypeError"
  | Some u =>
      if bool_decide (code ∈ contacts u) then mret tt
      else
        set_users
          (users_set (key_of name)
             (User (password u) (userCode u) (contacts u ++ [code])) us)
  end.

Definition handleAddContact (adderUserCode targetUserCode : field)
    (ws : conn) : M unit :=
  d ← gets db;
  let adderUsername := find_username (users d) adderUserCode in
  let targetUsername := find_username (users d) targetUserCode in
  if falsy_name targetUsername
  then ws_send ws (EError "User with that code does not exist.")
  else if field_eqb adderUserCode targetUserCode
  then ws_send ws (EError "You cannot add yourself as a contact.")
  else
    push_contact adderUsername targetUserCode;;
    push_contact targetUsername adderUserCode;;
    saveDatabase;;
    sendContactListUpdate adderUserCode;;
    cs ← gets clients;
    match clients_get cs targetUserCode with
    | Some _ => sendContactListUpdate targetUserCode
    | None => mret tt
    end.

Definition handleGetChat (currentUserCode targetUserCode : field)
    (ws : conn) : M unit :=
  d ← gets db;
  cs ← gets clients;
  let chatKey := getChatKey currentUserCode targetUserCode in
  let messages := default [] (chats d !! chatKey) in
  let isOnline := clients_has cs targetUserCode in
  ws_send ws (EChatHistory messages targetUserCode isOnline).

Definition handleSendMessage (sender receiver text : field) (ws : conn)
  : M unit :=
  i ← uuidv4;
  t ← toISOString_now;
  let message := Message i sender receiver text t false in
  let chatKey := getChatKey sender receiver in
  d ← gets db;
  set_chats (<[chatKey := default [] (chats d !! chatKey) ++ [message]]>
               (chats d));;
  saveDatabase;;
  cs ← gets clients;
  match clients_get cs receiver with
  | Some recipientWs => ws_send recipientWs (ENewMessage message)
  | None => mret tt
  end;;
  ws_send ws (EMessageSent message).

Definition handleTyping (typer receiver : field) : M unit :=
  cs ← gets clients;
  match clients_get cs receiver with
  | Some recipientWs => ws_send recipientWs (ETyping typer)
  | None => mret tt
  end.

(** [message.read = true] on the element [chat.find] returned: the array
    element at that position is the object that changes. *)
Definition mark_read (m : message) : message :=
  Message (id m) (sender m) (receiver m) (text m) (timestamp m) true.

Definition handleReadMessage (reader messageId messageSender : field)
  : M unit :=
  d ← gets db;
  let chatKey := getChatKey reader messageSender in
  match chats d !! chatKey with
  | None => mret tt
  | Some chat =>
      match list_find (λ m, Str (id m) = messageId) chat with
      | None => mret tt
      | Some (k, message) =>
          if read message then mret tt
          else
            set_chats (<[chatKey := <[k := mark_read message]> chat]> (chats d));;
            saveDatabase;;
            cs ← gets clients;
            match clients_get cs messageSender with
            | Some senderWs => ws_send senderWs (EReadReceipt messageId reader)
            | None => mret tt
            end
      end
  end.

(** ** Inbound frames *)

(** A payload: the fields it has, each a string. *)
Definition object := list (string * string).

(** [payload.k], as the destructuring [const { k } = payload] reads it. *)
Fixpoint get (o : object) (k : string) : field :=
  match o with
  | [] => Absent
  | (k', v) :: r => if String.eqb k' k then Str v else get r k
  end.

(** What [JSON.parse] returned, as [handleMessage] sees it: [type] is
    [undefined] when the value has no such property, and so is [payload];
    destructuring the latter then throws, as it does for [null].  A
    payload that is not an object has none of the fields. *)
Record data := Data {
  type : field;
  payload : option object;
}.

(** The text of a frame: [JSON.parse] throws on it (as does attaching the
    socket to the value [null]), or gives [data]. *)
Inductive frame :=
| Garbage
| Parsed (d : data).

(** [const { ... } = payload]. *)
Definition destructure (p : option object) : M object :=
  match p with
  | Some o => mret o
  | None => throw "TypeError"
  end.

(** The own properties of [messageHandlers], each applied to the fields
    its handler takes out of the payload. *)
Definition own_handler (fuel : nat) (name : string)
  : option (object → conn → M unit) :=
  if String.eqb name "signup" then
    Some (λ p ws, handleSignup fuel (get p "username") (get p "password") ws)
  else if String.eqb name "login" then
    Some (λ p ws, handleLogin (get p "username") (get p "password") ws)
  else if String.eqb name "addContact" then
    Some (λ p ws,
            handleAddContact (get p "adderUserCode") (get p "targetUserCode")
                             ws)
  else if String.eqb name "getChat" then
    Some (λ p ws,
            handleGetChat (get p "currentUserCode") (get p "targetUserCode")
                          ws)
  else if String.eqb name "sendMessage" then
    Some (λ p ws,
            handleSendMessage (get p "sender") (get p "receiver")
                              (get p "text") ws)
  else if String.eqb name "typing" then
    Some (λ p _, handleTyping (get p "typer") (get p "receiver"))
  else if String.eqb name "readMessage" then
    Some (λ p _,
            handleReadMessage (get p "reader") (get p "messageId")
                              (get p "messageSender"))
  else if String.eqb name "reconnect" then
    Some (λ p ws, handleReconnect (get p "username") (get p "userCode") ws)
  else None.

(** The value of [messageHandlers[type]]: one of the eight handlers; a
    member of [Object.prototype], which is truthy and gets called with
    the frame ([Object] and [toString] return, the others throw, being
    called without a receiver or, for [__proto__], not being functions);
    or [undefined]. *)
Inductive handler :=
| Handler (h : object → conn → M unit)
| Builtin (throws : bool)
| NoHandler.

Definition messageHandlers (fuel : nat) (type : field) : handler :=
  let name := prop_key type in
  match own_handler fuel name with
  | Some h => Handler h
  | None =>
      if bool_decide (name ∈ JS.object_prototype_keys)
      then Builtin (negb (String.eqb name "constructor"
                          || String.eqb name "toString"))
      else NoHandler
  end.

Definition handleMessage (fuel : nat) (data : data) (ws : conn) : M unit :=
  match messageHandlers fuel (type data) with
  | Handler h => p ← destructure (payload data); h p ws
  | Builtin true => throw "TypeError"
  | Builtin false => mret tt
  | NoHandler => mret tt
  end.

(** [ws.on("message")]: an exception of [JSON.parse] or of the handler is
    answered with an [error] frame. *)
Definition on_message (fuel : nat) (f : frame) (ws : conn) : M unit :=
  match f with
  | Garbage => ws_send ws (EError "Invalid message format.")
  | Parsed data =>
      λ w,
        match handleMessage fuel data ws w with
        | (Thrown _, w') => ws_send ws (EError "Invalid message format.") w'
        | r => r
        end
  end.

(** The frames the client builds: one of the eight types, with the
    fields of that type (some of which may be missing). *)
Inductive request :=
| Signup (username password : field)
| Login (username password : field)
| AddContact (adderUserCode targetUserCode : field)
| GetChat (currentUserCode targetUserCode : field)
| SendMessage (sender receiver text : field)
| Typing (typer receiver : field)
| ReadMessage (reader messageId messageSender : field)
| Reconnect (username code : field).

(** The object with the given fields; a field that is [undefined] is not
    in the JSON text. *)
Fixpoint fields (l : list (string * field)) : object :=
  match l with
  | [] => []
  | (k, Str v) :: r => (k, v) :: fields r
  | (_, Absent) :: r => fields r
  end.

Definition data_of (r : request) : data :=
  match r with
  | Signup username password =>
      Data "signup" (Some (fields [("username", username);
                                   ("password", password)]))
  | Login username password =>
      Data "login" (Some (fields [("username", username);
                                  ("password", password)]))
  | AddContact adder target =>
      Data "addContact" (Some (fields [("adderUserCode", adder);
                                       ("targetUserCode", target)]))
  | GetChat current target =>
      Data "getChat" (Some (fields [("currentUserCode", current);
                                    ("targetUserCode", target)]))
  | SendMessage sender receiver text =>
      Data "sendMessage" (Some (fields [("sender", sender);
                                        ("receiver", receiver);
                                        ("text", text)]))
  | Typing typer receiver =>
      Data "typing" (Some (fields [("typer", typer);
                                   ("receiver", receiver)]))
  | ReadMessage reader messageId messageSender =>
      Data "readMessage" (Some (fields [("reader", reader);
                                        ("messageId", messageId);
                                        ("messageSender", messageSender)]))
  | Reconnect username code =>
      Data "reconnect" (Some (fields [("username", username);
                                      ("userCode", code)]))
  end.

Coercion data_of : request >-> data.
Coercion Parsed : data >-> frame.

(** [ws.on("close")]: the loop over [clients.entries()] stops at the first
    entry whose socket is [ws]. *)
Fixpoint close_scan (entries : list (field * conn)) (ws : conn) : M unit :=
  match entries with
  | [] => mret tt
  | (code, clientWs) :: rest =>
      if Nat.eqb clientWs ws then
        modify (λ w, set_clients (clients_delete code (clients w)) w);;
        broadcastOnlineStatus code false
      else close_scan rest ws
  end.

Definition on_close (ws : conn) : M unit :=
  cs ← gets clients;
  close_scan cs ws.

(** The events the server reacts to, and its runs. *)
Inductive event :=
| Message_in (ws : conn) (f : frame)
| Close (ws : conn).

Definition react (fuel : nat) (e : event) : M unit :=
  match e with
  | Message_in ws f => on_message fuel f ws
  | Close ws => on_close ws
  end.

Definition run_events (fuel : nat) (es : list event) : M unit :=
  forEach es (react fuel).

(** ** Vocabulary of the statements *)

(** What [handleMessage] does with a frame the client built. *)
Definition serve (fuel : nat) (r : request) (ws : conn) : M unit :=
  match r with
  | Signup username password => handleSignup fuel username password ws
  | Login username password => handleLogin username password ws
  | AddContact adder target => handleAddContact adder target ws
  | GetChat current target => handleGetChat current target ws
  | SendMessage sender receiver text =>
      handleSendMessage sender receiver text ws
  | Typing typer receiver => handleTyping typer receiver
  | ReadMessage reader messageId messageSender =>
      handleReadMessage reader messageId messageSender
  | Reconnect username code => handleReconnect username code ws
  end.

(** The request a frame amounts to when its type is one of the eight and
    it has a payload: the handler is given the fields it takes out of the
    payload, those that are missing as [undefined]. *)
Definition request_of (d : data) : option request :=
  match payload d with
  | None => None
  | Some p =>
      let name := prop_key (type d) in
      if String.eqb name "signup" then
        Some (Signup (get p "username") (get p "password"))
      else if String.eqb name "login" then
        Some (Login (get p "username") (get p "password"))
      else if String.eqb name "addContact" then
        Some (AddContact (get p "adderUserCode") (get p "targetUserCode"))
      else if String.eqb name "getChat" then
        Some (GetChat (get p "currentUserCode") (get p "targetUserCode"))
      else if String.eqb name "sendMessage" then
        Some (SendMessage (get p "sender") (get p "receiver") (get p "text"))
      else if String.eqb name "typing" then
        Some (Typing (get p "typer") (get p "receiver"))
      else if String.eqb name "readMessage" then
        Some (ReadMessage (get p "reader") (get p "messageId")
                          (get p "messageSender"))
      else if String.eqb name "reconnect" then
        Some (Reconnect (get p "username") (get p "userCode"))
      else None
  end.

(** The message [handleSendMessage] builds in world [w]. *)
Definition message_of (w : world) (A B t : field) : message :=
  Message (uuid_seq (env w) (n_uuid w)) A B t
          (clock_seq (env w) (n_clock w)) false.

(** The generator of identifiers never hands out the same value twice. *)
Definition collision_free (e : environment) : Prop :=
  ∀ j k, uuid_seq e j = uuid_seq e k → j = k.

(** Every stored message carries an identifier the generator has handed
    out already. *)
Definition ids_drawn (w : world) : Prop :=
  ∀ key chat m,
    chats (db w) !! key = Some chat → m ∈ chat →
    ∃ k, k < n_uuid w ∧ id m = uuid_seq (env w) k.

(** A computation that leaves the conversations, the environment and the
    count of the identifiers handed out as they are, however it ends. *)
Definition keeps_chats {A} (m : M A) : Prop :=
  ∀ w,
    chats (db (m w).2) = chats (db w)
    ∧ env (m w).2 = env w
    ∧ n_uuid (m w).2 = n_uuid w.

(** The frame pushed to the receiver, if the registry knows the receiver. *)
Definition delivery (w : world) (B : field) (m : message) : list effect :=
  match clients_get (clients w) B with
  | Some recipientWs => [Sent recipientWs (ENewMessage m)]
  | None => []
  end.

(** The frame pushed to the sender of a message that was just marked
    read, if the registry knows that sender. *)
Definition receipt (w : world) (S M R : field) : list effect :=
  match clients_get (clients w) S with
  | Some senderWs => [Sent senderWs (EReadReceipt M R)]
  | None => []
  end.

(** What one readMessage for identifier [i] does to a conversation. *)
Definition mark_in_chat (i : string) (chat : list message) : list message :=
  match list_find (λ m, id m = i) chat with
  | Some (k, m) => if read m then chat else <[k := mark_read m]> chat
  | None => chat
  end.

Definition mark_if (i : string) (m : message) : message :=
  if decide (id m = i) then mark_read m else m.

Definition mark_ids (l : list string) (m : message) : message :=
  if decide (id m ∈ l) then mark_read m else m.

(** The identifiers of the messages of the conversation of [V] and [C]
    that are addressed to [V] and unread, and the client marking each of
    them read, as [renderChat] does. *)
Definition unread_ids (d : database) (V C : field) : list string :=
  id <$> filter (unread_for V) (default [] (chats d !! getChatKey V C)).

Definition read_all (V C : field) (ids : list string) : M unit :=
  forEach ids (λ i, handleReadMessage V (Str i) C).

(** The code [generateUserCode] makes of one draw of
    [Math.random().toString(36)]. *)
Definition code_of_draw (r : string) : string :=
  JS.toUpperCase (JS.substring r 2 8).

(** The digits of a radix-36 numeral and the alphabet of the codes. *)
Definition radix36_digit (c : ascii) : bool :=
  let n := nat_of_ascii c in
  ((48 <=? n)%nat && (n <=? 57)%nat) || ((97 <=? n)%nat && (n <=? 122)%nat).

Definition code_char (c : ascii) : bool :=
  let n := nat_of_ascii c in
  ((48 <=? n)%nat && (n <=? 57)%nat) || ((65 <=? n)%nat && (n <=? 90)%nat).

Fixpoint all_chars (p : ascii → bool) (s : string) : bool :=
  match s with
  | EmptyString => true
  | String c r => p c && all_chars p r
  end.

(** The presence frames among the effects. *)
Definition is_onlineStatus (e : effect) : bool :=
  match e with
  | Sent _ (EOnlineStatus _ _) => true
  | _ => false
  end.

(** The presence frame for a contact, if the registry knows the contact. *)
Definition status_frame (cs : list (field * conn)) (code : field)
    (isOnline : bool) (contactCode : field) : option effect :=
  (λ contactWs, Sent contactWs (EOnlineStatus code isOnline))
    <$> clients_get cs contactCode.

(** Codes without the separator of [getChatKey]. *)
Definition no_dash (s : string) : bool :=
  all_chars (λ c, negb (Ascii.eqb c "-")) s.

(** The frames among the effects (the others are writes of the store). *)
Definition is_sent (e : effect) : bool :=
  match e with
  | Sent _ _ => true
  | Saved _ => false
  end.

(** The world after some more effects. *)
Definition add_trace (new : list effect) (w : world) : world :=
  World (db w) (clients w) (wsUserCode w) (trace w ++ new) (env w)
        (n_uuid w) (n_clock w) (n_random w).

(** A computation that always runs to its end and does nothing but add
    effects of one kind to the trace; [quiet] when all it does is send
    frames. *)
Definition adds (P : effect → Prop) {A} (m : M A) : Prop :=
  ∀ w, ∃ a new, m w = (Done a, add_trace new w) ∧ Forall P new.

Definition quiet {A} (m : M A) : Prop :=
  ∀ w, ∃ a new, m w = (Done a, add_trace new w) ∧ Forall is_sent new.

(** The frames that announce a login: [loginSuccess], [contactList] and
    [onlineStatus]. *)
Definition is_announcement (e : effect) : Prop :=
  match e with
  | Sent _ (ELoginSuccess _ _) | Sent _ (EContactList _)
  | Sent _ (EOnlineStatus _ _) => True
  | _ => False
  end.

(** A run that ends normally, leaves the database alone and writes
    nothing: all it adds to the trace are frames. *)
Definition only_sends (m : M unit) (w : world) : Prop :=
  ∃ w' new,
    m w = (Done tt, w') ∧ db w' = db w
    ∧ trace w' = trace w ++ new ∧ Forall is_sent new.

(** The world after [clients.set(code, ws); ws.userCode = code]. *)
Definition bound (code : field) (ws : conn) (w : world) : world :=
  set_wsUserCode (<[ws := code]> (wsUserCode w))
    (set_clients (clients_set code ws (clients w)) w).

(** The frames that [ws.on("message")] answers with
    ["Invalid message format."] whatever the state: text that is not
    JSON, a frame for one of the eight handlers without a payload, and a
    frame whose type names one of the ten members of [Object.prototype]
    that throw when called. *)
Definition malformed (fuel : nat) (f : frame) : bool :=
  match f with
  | Garbage => true
  | Parsed d =>
      match messageHandlers fuel (type d) with
      | Handler _ => bool_decide (payload d = None)
      | Builtin throws => throws
      | NoHandler => false
      end
  end.

(** ** The stored state and the ways it changes *)

(** What outlives a handler: the database and the registry. *)
Definition state : Type := database * list (field * conn).

Definition st (w : world) : state := (db w, clients w).

(** The changes of the stored state that the handlers make. *)
Inductive step : state → state → Prop :=
| step_signup d cs username u :
    users_own (users d) username = None →
    userCode u ∉ existing_codes (users d) →
    contacts u = [] →
    step (d, cs) (Database (users_add username u (users d)) (chats d), cs)
| step_contact d cs n u c :
    users_own (users d) n = Some u →
    step (d, cs)
         (Database
            (users_replace n
               (User (password u) (userCode u) (contacts u ++ [c])) (users d))
            (chats d), cs)
| step_send d cs key m :
    step (d, cs)
         (Database (users d)
            (<[key := default [] (chats d !! key) ++ [m]]> (chats d)), cs)
| step_read d cs key chat k m :
    chats d !! key = Some chat →
    chat !! k = Some m →
    step (d, cs)
         (Database (users d)
            (<[key := <[k := mark_read m]> chat]> (chats d)), cs)
| step_bind d cs n u ws :
    users_own (users d) n = Some u →
    step (d, cs) (d, clients_set (userCode u) ws cs)
| step_bind_undefined d cs ws :
    step (d, cs) (d, clients_set Absent ws cs)
| step_unbind d cs code :
    step (d, cs) (d, clients_delete code cs).

(** The codes of the accounts, in the order of the table. *)
Definition codes (d : database) : list string :=
  map (λ p, userCode p.2) (users d).

(** A message and what it may have become: the same but for the read
    flag, which only goes from false to true. *)
Definition same_but_read (m m' : message) : Prop :=
  id m' = id m ∧ sender m' = sender m ∧ receiver m' = receiver m
  ∧ text m' = text m ∧ timestamp m' = timestamp m
  ∧ (read m = true → read m' = true).

(** A conversation and what it may have become: its messages, kept in
    place, followed by newer ones. *)
Definition grows (chat chat' : list message) : Prop :=
  ∃ kept added, chat' = kept ++ added ∧ Forall2 same_but_read chat kept.

(** ** Concrete environments and worlds used to run the server *)

Module Scenario.

(** The generator hands out ["id0"], ["id00"], ...; the clock a fixed
    instant; [Math.random()] long fractions. *)
Definition env0 : environment :=
  Environment
    (λ k, "id" +:+ String.string_of_list_ascii (repeat "0"%char (S k)))
    (λ _, "2024-01-01T00:00:00.000Z")
    (λ k, match k with
          | 0 => "0.abc123xyz"
          | _ => "0.zzzzzzzzzz"
          end).

(** A server started without [db.json]. *)
Definition boot : world := World (Database [] ∅) [] ∅ [] env0 0 0 0.

(** The same, where [Math.random()] returns [0.5], which is ["0.i"] in
    radix 36. *)
Definition env_half : environment :=
  Environment (uuid_seq env0) (clock_seq env0) (λ _, "0.i").

Definition boot_half : world := World (Database [] ∅) [] ∅ [] env_half 0 0 0.

Definition alice : user := User "pw1" "ABC123" [Str "XYZ789"].
Definition bob : user := User "pw2" "XYZ789" [Str "ABC123"].

Definition hello : message :=
  Message "m-1" "ABC123" "XYZ789" "hello" "2023-12-31T23:59:59.000Z" false.

(** Two accounts that are contacts of each other, one unread message from
    alice to bob; bob is connected on socket 7. *)
Definition chatting : world :=
  World (Database [("alice", alice); ("bob", bob)]
                  {[ "ABC123-XYZ789" := [hello] ]})
        [(Str "XYZ789", 7)] {[ 7 := Str "XYZ789" ]} [] env0 0 0 0.

(** Two accounts that do not know each other yet. *)
Definition strangers : world :=
  World (Database [("alice", User "pw1" "ABC123" []);
                   ("bob", User "pw2" "XYZ789" [])] ∅)
        [(Str "ABC123", 3)] {[ 3 := Str "ABC123" ]} [] env0 0 0 0.

(** Two sign-ups, then both accounts log in on the same socket. *)
Definition shared_socket : list event :=
  [ Message_in 1 (Signup "alice" "pw1");
    Message_in 1 (Signup "bob" "pw2");
    Message_in 1 (Login "alice" "pw1");
    Message_in 1 (Login "bob" "pw2") ].

(** The two contacts both connected: alice on socket 3, bob on socket 7. *)
Definition both_online : world :=
  World (Database [("alice", alice); ("bob", bob)] ∅)
        [(Str "ABC123", 3); (Str "XYZ789", 7)]
        {[ 3 := Str "ABC123"; 7 := Str "XYZ789" ]} [] env0 0 0 0.

(** An account called ["undefined"] beside bob, who has no contacts. *)
Definition with_undefined : world :=
  World (Database [("undefined", User "pw0" "UNDEF1" []);
                   ("bob", User "pw2" "XYZ789" [])] ∅)
        [] ∅ [] env0 0 0 0.

(** An account whose user name is the empty string, beside alice. *)
Definition nameless : world :=
  World (Database [("", User "pw0" "NONAME" []);
                   ("alice", User "pw1" "ABC123" [])] ∅)
        [] ∅ [] env0 0 0 0.

(** A run that touches every table: a contact is added, a third account
    signs up, bob logs in, alice writes to him, he reads the message,
    and alice's socket closes. *)
Definition busy_day : list event :=
  [ Message_in 3 (AddContact "ABC123" "XYZ789");
    Message_in 5 (Signup "carol" "pw3");
    Message_in 7 (Login "bob" "pw2");
    Message_in 3 (SendMessage "ABC123" "XYZ789" "hello");
    Message_in 7 (ReadMessage "XYZ789" "id0" "ABC123");
    Close 3 ].

End Scenario.


(** * Properties *)

(** ** The canonical conversation key *)

Lemma ltb_antisym a b :
  String.ltb a b = false → String.ltb b a = false → a = b.
Proof.
  unfold String.ltb. rewrite (String.compare_antisym b a).
  destruct (String.compare a b) eqn:E; simpl; try discriminate.
  intros _ _. by apply String.compare_eq_iff.
Qed.

Lemma ltb_asym a b : String.ltb a b = true → String.ltb b a = false.
Proof.
  unfold String.ltb. rewrite (String.compare_antisym b a).
  by destruct (String.compare a b).
Qed.

Lemma getChatKey_comm (a b : field) : getChatKey a b = getChatKey b a.
Proof.
  unfold getChatKey, JS.sort. destruct a as [|a], b as [|b]; try done. simpl.
  destruct (String.ltb b a) eqn:Hba, (String.ltb a b) eqn:Hab; try done.
  - apply ltb_asym in Hba. congruence.
  - by rewrite (ltb_antisym a b).
Qed.

(** ** Running the monad *)

Ltac run :=
  cbv beta delta
    [mbind mret M_bind M_ret gets modify throw out_of_fuel ws_send
     saveDatabase uuidv4 toISOString_now random_toString36 set_users
     set_chats] iota; cbn [fst snd].

(** ** Strict equality and frames built by the client *)

Lemma field_eqb_eq (a b : field) : field_eqb a b = true ↔ a = b.
Proof.
  destruct a as [|a], b as [|b]; simpl; try (split; [discriminate|done]);
    [done|].
  rewrite String.eqb_eq. split; congruence.
Qed.

Lemma field_eqb_refl (a : field) : field_eqb a a = true.
Proof. by apply field_eqb_eq. Qed.

Lemma field_eqb_neq (a b : field) : field_eqb a b = false ↔ a ≠ b.
Proof.
  rewrite <- field_eqb_eq. destruct (field_eqb a b); split; congruence.
Qed.

Lemma handleMessage_request (fuel : nat) (r : request) (ws : conn) :
  handleMessage fuel r ws = serve fuel r ws.
Proof.
  destruct r as [[|?] [|?]|[|?] [|?]|[|?] [|?]|[|?] [|?]|[|?] [|?] [|?]
                |[|?] [|?]|[|?] [|?] [|?]|[|?] [|?]]; reflexivity.
Qed.

(** A frame is served as the request it amounts to; any other frame
    throws at once or does nothing. *)
Lemma handleMessage_cases (fuel : nat) (d : data) (ws : conn) :
  match request_of d with
  | Some r => handleMessage fuel d ws = serve fuel r ws
               ∧ malformed fuel d = false
  | None => (handleMessage fuel d ws = throw "TypeError"
             ∧ malformed fuel d = true)
            ∨ (handleMessage fuel d ws = mret tt
               ∧ malformed fuel d = false)
  end.
Proof.
  destruct d as [ty [p|]];
    unfold request_of, handleMessage, malformed, messageHandlers, own_handler;
    cbn [type payload];
    repeat (destruct (String.eqb (prop_key ty) _);
            [first [by split|by left]|]);
    destruct (bool_decide _); try (by right);
    destruct (negb _); [by left|by right|by left|by right].
Qed.

Lemma on_message_request (fuel : nat) (r : request) (ws : conn) (w : world) :
  on_message fuel r ws w
  = match serve fuel r ws w with
    | (Thrown _, w') => ws_send ws (EError "Invalid message format.") w'
    | o => o
    end.
Proof. unfold on_message. by rewrite handleMessage_request. Qed.

(** ** [handleSendMessage] *)

Lemma handleSendMessage_run (w : world) (A B t : field) (ws : conn) :
  let m := message_of w A B t in
  let key := getChatKey A B in
  ∃ w',
    handleSendMessage A B t ws w = (Done tt, w')
    ∧ chats (db w')
      = <[key := default [] (chats (db w) !! key) ++ [m]]> (chats (db w))
    ∧ users (db w') = users (db w)
    ∧ clients w' = clients w
    ∧ trace w' = trace w ++ Saved (db w') :: delivery w B m
                   ++ [Sent ws (EMessageSent m)].
Proof.
  intros m key. unfold handleSendMessage. run.
  unfold delivery. simpl.
  destruct (clients_get (clients w) B) as [r|]; run; simpl;
    eexists; (split; [reflexivity|]); simpl; repeat split;
    by rewrite <- ?app_assoc.
Qed.

(** C8, as stated, fails: the server does not reject an empty text.  On
    the freshly booted server a sendMessage from ["ABC123"] to ["XYZ789"]
    with text [""] is not a no-op: no run leaves the conversations and the
    trace as they were. *)
Lemma sendMessage_empty_text_not_rejected :
  ¬ (∃ w', handleSendMessage "ABC123" "XYZ789" "" 1 Scenario.boot = (Done tt, w')
           ∧ chats (db w') = chats (db Scenario.boot)
           ∧ trace w' = trace Scenario.boot).
Proof.
  intros (w' & Hrun & _ & Htr).
  destruct (handleSendMessage_run Scenario.boot "ABC123" "XYZ789" "" 1)
    as (w'' & Hrun' & _ & _ & _ & Htr').
  rewrite Hrun in Hrun'. injection Hrun' as <-.
  rewrite Htr in Htr'. simpl in Htr'. discriminate.
Qed.

(** C8, amended. The server's sendMessage handler does not look at the
    text: with the empty text it behaves as with any other. A message with
    text [""] is built and appended under the canonical key, the store is
    written, [newMessage] goes to the receiver if the registry knows the
    receiver, and [messageSent] goes to the submitting socket. *)
Theorem sendMessage_empty_text_is_stored
    (w : world) (A B : string) (ws : conn) :
  let m := message_of w A B "" in
  let key := getChatKey A B in
  ∃ w',
    handleSendMessage A B "" ws w = (Done tt, w')
    ∧ text m = ""
    ∧ chats (db w') !! key = Some (default [] (chats (db w) !! key) ++ [m])
    ∧ trace w' = trace w ++ Saved (db w') :: delivery w B m
                   ++ [Sent ws (EMessageSent m)].
Proof.
  intros m key.
  destruct (handleSendMessage_run w A B "" ws) as (w' & Hrun & Hch & _ & _ & Htr).
  exists w'. split_and!; try done.
  rewrite Hch. apply lookup_insert_eq.
Qed.

(** C9. sendMessage validates neither the sender nor the receiver code:
    whatever the payload and the state (codes of no account, codes that are
    not contacts, equal codes, a sender that is not the code bound to the
    submitting socket), the handler runs to its end without throwing and
    without an [error] frame; it creates the conversation if there was
    none, appends the message, writes the store and acknowledges the
    submitting socket. *)
Theorem sendMessage_never_rejects
    (fuel : nat) (w : world) (A B t : string) (ws : conn) :
  let m := message_of w A B t in
  let key := getChatKey A B in
  ∃ w' new,
    handleSendMessage A B t ws w = (Done tt, w')
    ∧ on_message fuel (SendMessage A B t) ws w = (Done tt, w')
    ∧ trace w' = trace w ++ new
    ∧ (∀ to e, Sent to e ∈ new → envelope_type e ≠ "error")
    ∧ chats (db w') !! key
      = Some (match chats (db w) !! key with
              | Some chat => chat ++ [m]
              | None => [m]
              end)
    ∧ Saved (db w') ∈ new
    ∧ Sent ws (EMessageSent m) ∈ new.
Proof.
  intros m key.
  destruct (handleSendMessage_run w A B t ws) as (w' & Hrun & Hch & _ & _ & Htr).
  exists w', (Saved (db w') :: delivery w B m ++ [Sent ws (EMessageSent m)]).
  split_and!; try done.
  - rewrite on_message_request. simpl. by rewrite Hrun.
  - intros to e Hin. unfold delivery in Hin.
    destruct (clients_get (clients w) B); set_unfold;
      intuition (simplify_eq; done).
  - rewrite Hch, lookup_insert_eq. subst key m.
    by destruct (chats (db w) !! getChatKey A B).
  - set_solver.
  - set_solver.
Qed.

(** ** [handleReadMessage] *)

Lemma mark_read_read (m : message) : read m = true → mark_read m = m.
Proof. destruct m as [? ? ? ? ? r]. simpl. by intros ->. Qed.

Lemma list_find_Str (M : string) (chat : list message) :
  list_find (λ m, Str (id m) = Str M) chat = list_find (λ m, id m = M) chat.
Proof.
  induction chat as [|y chat IH]; [done|]. simpl. rewrite IH.
  destruct (decide (Str (id y) = Str M)) as [H|H], (decide (id y = M));
    try done; congruence.
Qed.

Lemma handleReadMessage_skip (w : world) (R : field) (M : string) (S : field) :
  match chats (db w) !! getChatKey R S with
  | None => True
  | Some chat =>
      match list_find (λ m, id m = M) chat with
      | None => True
      | Some (_, m) => read m = true
      end
  end →
  handleReadMessage R M S w = (Done tt, w).
Proof.
  unfold handleReadMessage. run.
  destruct (chats (db w) !! getChatKey R S) as [chat|]; [|done].
  rewrite list_find_Str.
  destruct (list_find _ chat) as [[k m]|]; [|done].
  by intros ->.
Qed.

Lemma handleReadMessage_no_id (w : world) (R S : field) :
  handleReadMessage R Absent S w = (Done tt, w).
Proof.
  unfold handleReadMessage. run.
  destruct (chats (db w) !! getChatKey R S) as [chat|]; [|done].
  destruct (list_find _ chat) as [[k m]|] eqn:Hf; [|done].
  by apply list_find_Some in Hf as (_ & ? & _).
Qed.

Lemma handleReadMessage_mark (w : world) (R : field) (M : string) (S : field)
    (chat : list message) (k : nat) (m : message) :
  let key := getChatKey R S in
  chats (db w) !! key = Some chat →
  list_find (λ m, id m = M) chat = Some (k, m) →
  read m = false →
  ∃ w1,
    handleReadMessage R M S w = (Done tt, w1)
    ∧ chats (db w1) = <[key := <[k := mark_read m]> chat]> (chats (db w))
    ∧ users (db w1) = users (db w)
    ∧ clients w1 = clients w
    ∧ trace w1 = trace w ++ Saved (db w1) :: receipt w S M R.
Proof.
  intros key Hchat Hfind Hread.
  unfold handleReadMessage. run. fold key.
  rewrite Hchat, list_find_Str, Hfind, Hread.
  unfold receipt. simpl.
  destruct (clients_get (clients w) S); run; simpl;
    eexists; (split; [reflexivity|]); simpl; split_and!;
    by rewrite <- ?app_assoc.
Qed.

Lemma list_find_NoDup_id (chat : list message) (k : nat) (m : message) :
  NoDup (id <$> chat) → chat !! k = Some m →
  list_find (λ m', id m' = id m) chat = Some (k, m).
Proof.
  intros Hnd Hk. apply list_find_Some. split_and!; [done..|].
  intros j y Hj Hlt Hid.
  assert (j = k); [|lia].
  eapply NoDup_lookup; [exact Hnd| |].
  - by rewrite list_lookup_fmap, Hj.
  - by rewrite list_lookup_fmap, Hk, Hid.
Qed.

Lemma fmap_id_insert_mark (chat : list message) (k : nat) (m : message) :
  chat !! k = Some m → id <$> <[k := mark_read m]> chat = id <$> chat.
Proof.
  intros Hk. rewrite list_fmap_insert. simpl.
  apply list_insert_id. by rewrite list_lookup_fmap, Hk.
Qed.

(** C3. If the conversation under the canonical key of [(R, S)] contains a
    message with identifier [M] that is unread (identifiers being unique
    within the conversation), a readMessage by [R] sets its flag, writes
    the store, and pushes exactly one [readReceipt] carrying [M] to [S]'s
    socket when the registry knows [S] (none otherwise); a second
    readMessage for the same identifier leaves the whole state, trace
    included, as it is: the flag stays set and no further frame is sent. *)
Theorem readMessage_marks_once
    (w : world) (R M S : string) (chat : list message) (k : nat)
    (m : message) :
  let key := getChatKey R S in
  chats (db w) !! key = Some chat →
  NoDup (id <$> chat) →
  chat !! k = Some m →
  id m = M →
  read m = false →
  ∃ w1,
    handleReadMessage R M S w = (Done tt, w1)
    ∧ chats (db w1) = <[key := <[k := mark_read m]> chat]> (chats (db w))
    ∧ read (mark_read m) = true
    ∧ users (db w1) = users (db w)
    ∧ clients w1 = clients w
    ∧ match clients_get (clients w) S with
      | Some senderWs =>
          trace w1 = trace w ++ [Saved (db w1);
                                 Sent senderWs (EReadReceipt M R)]
      | None => trace w1 = trace w ++ [Saved (db w1)]
      end
    ∧ handleReadMessage R M S w1 = (Done tt, w1).
Proof.
  intros key Hchat Hnd Hk <- Hread.
  pose proof (list_find_NoDup_id chat k m Hnd Hk) as Hfind.
  destruct (handleReadMessage_mark w R (id m) S chat k m Hchat Hfind Hread)
    as (w1 & Hrun & Hch & Hus & Hcl & Htr).
  exists w1. split_and!; try done.
  - unfold receipt in Htr. by destruct (clients_get (clients w) S).
  - apply handleReadMessage_skip. fold key.
    rewrite Hch, lookup_insert_eq.
    assert (Hk' : <[k := mark_read m]> chat !! k = Some (mark_read m)).
    { apply list_lookup_insert_eq. by eapply lookup_lt_Some. }
    assert (Hnd' : NoDup (id <$> <[k := mark_read m]> chat)).
    { by rewrite fmap_id_insert_mark. }
    pose proof (list_find_NoDup_id _ k (mark_read m) Hnd' Hk') as Hf.
    simpl in Hf. by rewrite Hf.
Qed.

Lemma readMessage_marks_once_witness :
  let w := Scenario.chatting in
  ∃ w1,
    handleReadMessage "XYZ789" "m-1" "ABC123" w = (Done tt, w1)
    ∧ chats (db w1) !! "ABC123-XYZ789" = Some [mark_read Scenario.hello]
    ∧ trace w1 = [Saved (db w1)]
    ∧ handleReadMessage "XYZ789" "m-1" "ABC123" w1 = (Done tt, w1).
Proof.
  intros w.
  destruct (readMessage_marks_once w "XYZ789" "m-1" "ABC123"
              [Scenario.hello] 0 Scenario.hello)
    as (w1 & Hrun & Hch & _ & _ & _ & Htr & Hagain).
  - reflexivity.
  - simpl. apply NoDup_singleton.
  - reflexivity.
  - reflexivity.
  - reflexivity.
  - exists w1. split_and!; try done.
    rewrite Hch. apply lookup_insert_eq.
Defined.

(** C10. A readMessage whose canonical conversation for (reader, sender)
    does not exist, or has no message with the given identifier, does
    nothing at all: the state is unchanged, nothing is written, no frame
    is sent to anybody (no receipt, no error reply), and nothing is
    thrown. *)
Theorem readMessage_unknown_is_noop
    (fuel : nat) (w : world) (R M S : string) (ws : conn) :
  (chats (db w) !! getChatKey R S = None
   ∨ ∃ chat, chats (db w) !! getChatKey R S = Some chat
             ∧ ∀ m, m ∈ chat → id m ≠ M) →
  handleReadMessage R M S w = (Done tt, w)
  ∧ on_message fuel (ReadMessage R M S) ws w = (Done tt, w).
Proof.
  intros H.
  assert (Hrun : handleReadMessage R M S w = (Done tt, w)).
  { apply handleReadMessage_skip.
    destruct H as [->|(chat & -> & Hno)]; [done|].
    destruct (list_find _ chat) as [[k m]|] eqn:Hf; [|done].
    apply list_find_Some in Hf as (Hk & Hid & _).
    exfalso. eapply Hno; [|exact Hid]. by eapply list_elem_of_lookup_2. }
  split; [done|]. rewrite on_message_request. simpl. by rewrite Hrun.
Qed.

Lemma readMessage_unknown_is_noop_witness :
  handleReadMessage "XYZ789" "m-2" "ABC123" Scenario.chatting
    = (Done tt, Scenario.chatting)
  ∧ handleReadMessage "XYZ789" "m-1" "QQQQQQ" Scenario.chatting
    = (Done tt, Scenario.chatting).
Proof.
  split.
  - apply (readMessage_unknown_is_noop 0 Scenario.chatting
             "XYZ789" "m-2" "ABC123" 7).
    right. exists [Scenario.hello]. split; [reflexivity|].
    intros m Hin. apply list_elem_of_singleton in Hin as ->. discriminate.
  - apply (readMessage_unknown_is_noop 0 Scenario.chatting
             "XYZ789" "m-1" "QQQQQQ" 7).
    left. reflexivity.
Defined.

(** ** Unread counts *)

Lemma handleReadMessage_effect (w : world) (R : field) (M : string)
    (S : field) :
  let key := getChatKey R S in
  ∃ w',
    handleReadMessage R M S w = (Done tt, w')
    ∧ users (db w') = users (db w)
    ∧ clients w' = clients w
    ∧ chats (db w') !! key = mark_in_chat M <$> chats (db w) !! key.
Proof.
  intros key.
  destruct (chats (db w) !! key) as [chat|] eqn:Hchat.
  - unfold mark_in_chat. simpl.
    destruct (list_find (λ m, id m = M) chat) as [[k m]|] eqn:Hfind.
    + destruct (read m) eqn:Hread.
      * exists w. split_and!; try done.
        apply handleReadMessage_skip. fold key. by rewrite Hchat, Hfind.
      * destruct (handleReadMessage_mark w R M S chat k m Hchat Hfind Hread)
          as (w1 & Hrun & Hch & Hus & Hcl & _).
        exists w1. split_and!; try done.
        by rewrite Hch, lookup_insert_eq.
    + exists w. split_and!; try done.
      apply handleReadMessage_skip. fold key. by rewrite Hchat, Hfind.
  - exists w. split_and!; try done.
    apply handleReadMessage_skip. fold key. by rewrite Hchat.
Qed.

Lemma mark_in_chat_fmap (i : string) (chat : list message) :
  NoDup (id <$> chat) → mark_in_chat i chat = mark_if i <$> chat.
Proof.
  intros Hnd. unfold mark_in_chat.
  destruct (list_find (λ m, id m = i) chat) as [[k m]|] eqn:Hfind.
  - apply list_find_Some in Hfind as (Hk & Hid & _).
    assert (Heq : mark_if i <$> chat = <[k := mark_read m]> chat).
    { apply list_eq. intros j. rewrite list_lookup_fmap.
      destruct (decide (j = k)) as [->|Hne].
      - rewrite list_lookup_insert_eq by (by eapply lookup_lt_Some).
        rewrite Hk. simpl. unfold mark_if. by rewrite decide_True.
      - rewrite list_lookup_insert_ne by done.
        destruct (chat !! j) as [y|] eqn:Hj; [|done]. simpl.
        unfold mark_if. rewrite decide_False; [done|].
        intros Hy. apply Hne. eapply NoDup_lookup; [exact Hnd| |].
        + by rewrite list_lookup_fmap, Hj.
        + rewrite list_lookup_fmap, Hk. simpl. congruence. }
    rewrite Heq. destruct (read m) eqn:Hread; [|done].
    symmetry. apply list_insert_id. by rewrite mark_read_read.
  - apply list_find_None in Hfind.
    induction Hfind as [|y l Hy _ IH]; [done|].
    apply NoDup_cons in Hnd as [_ Hnd].
    rewrite fmap_cons, <- IH by done.
    unfold mark_if. by rewrite decide_False.
Qed.

Lemma mark_ids_cons (i : string) (l : list string) (m : message) :
  mark_ids l (mark_if i m) = mark_ids (i :: l) m.
Proof.
  unfold mark_ids, mark_if.
  destruct (decide (id m = i)) as [Hi|Hi].
  - rewrite (decide_True (P := id m ∈ i :: l)) by (rewrite Hi; left).
    simpl. by destruct (decide (id m ∈ l)).
  - destruct (decide (id m ∈ l)) as [Hl|Hl].
    + by rewrite decide_True by (by right).
    + rewrite decide_False; [done|]. by intros [?|?]%elem_of_cons.
Qed.

Lemma read_all_run (V C : field) (l : list string) :
  ∀ (w : world) (chat : list message),
    chats (db w) !! getChatKey V C = Some chat →
    NoDup (id <$> chat) →
    ∃ w',
      read_all V C l w = (Done tt, w')
      ∧ users (db w') = users (db w)
      ∧ clients w' = clients w
      ∧ chats (db w') !! getChatKey V C = Some (mark_ids l <$> chat).
Proof.
  induction l as [|i l IH]; intros w chat Hchat Hnd.
  - exists w. split_and!; try done.
    rewrite Hchat. f_equal. symmetry. etrans; [|apply list_fmap_id].
    apply list_fmap_ext. intros _ m _. unfold mark_ids.
    rewrite decide_False; [done|]. apply not_elem_of_nil.
  - destruct (handleReadMessage_effect w V i C) as (w1 & Hrun & Hus & Hcl & Hch).
    rewrite Hchat in Hch. simpl in Hch.
    rewrite mark_in_chat_fmap in Hch by done.
    destruct (IH w1 _ Hch) as (w' & Hrun' & Hus' & Hcl' & Hch').
    { rewrite <- list_fmap_compose.
      erewrite list_fmap_ext; [exact Hnd|].
      intros _ m _. simpl. unfold mark_if. by destruct (decide _). }
    exists w'. split_and!; try congruence.
    + unfold read_all in *. simpl. unfold mbind, M_bind at 1.
      by rewrite Hrun.
    + rewrite Hch', <- list_fmap_compose. f_equal.
      apply list_fmap_ext. intros _ m _. apply mark_ids_cons.
Qed.

Lemma unread_after_marking (V : field) (chat : list message) :
  filter (unread_for V)
    (mark_ids (id <$> filter (unread_for V) chat) <$> chat) = [].
Proof.
  set (l := id <$> filter (unread_for V) chat).
  assert (Hl : ∀ m, m ∈ chat → unread_for V m → id m ∈ l).
  { intros m Hin Hun. apply list_elem_of_fmap. exists m. split; [done|].
    by apply list_elem_of_filter. }
  clearbody l. induction chat as [|m chat IH]; [done|].
  rewrite fmap_cons, filter_cons, IH.
  - rewrite decide_False; [done|].
    unfold mark_ids, unread_for.
    destruct (decide (id m ∈ l)) as [Hin|Hin]; simpl.
    + by intros [_ ?].
    + intros Hun. apply Hin, Hl; [left|done].
  - intros m' Hin. apply Hl. by right.
Qed.

Lemma find_username_field (us : list (string * user)) (c : field)
    (n : string) :
  find_username us c = Some n →
  ∃ u, users_own us n = Some u ∧ Str (userCode u) = c.
Proof.
  unfold find_username. intros [_ H]%List.find_some.
  destruct (users_own us n) as [u|]; [|done].
  exists u. split; [done|]. by apply field_eqb_eq.
Qed.

Lemma find_username_Some (us : list (string * user)) (c n : string) :
  find_username us c = Some n →
  ∃ u, users_own us n = Some u ∧ userCode u = c.
Proof.
  intros (u & Hu & Hc)%find_username_field. exists u. split; congruence.
Qed.

Lemma find_username_Absent (us : list (string * user)) :
  find_username us Absent = None.
Proof.
  destruct (find_username us Absent) as [n|] eqn:H; [|done].
  by apply find_username_field in H as (u & _ & ?).
Qed.

Lemma sendContactListUpdate_run (w : world) (V : field) (ws : conn)
    (vu : user) :
  clients_get (clients w) V = Some ws →
  users_at (users (db w)) (find_username (users (db w)) V) = Some vu →
  sendContactListUpdate V w
  = (Done tt,
     log (Sent ws (EContactList
            (omap (contactDetail_of (db w) (clients w) V) (contacts vu)))) w).
Proof.
  intros Hws Hvu. unfold sendContactListUpdate. run.
  by rewrite Hws, Hvu.
Qed.

(** C2. For every viewer code [V] (connected, with an account) and every
    code [C] in [V]'s contact list that has an account, the entry for [C]
    in the [contactList] snapshot sent to [V] reports as unread count the
    number of messages of the conversation under the canonical key of
    [(V, C)] whose receiver is [V] and whose read flag is false.  Hence a
    sendMessage from [C] to [V] raises the reported count by exactly one,
    and [V] marking each such message read (identifiers being unique in
    the conversation) brings it to zero. *)
Theorem unread_count_reported
    (w : world) (V C : string) (ws : conn) (vu : user) (cname : string) :
  let conv := default [] (chats (db w) !! getChatKey V C) in
  let count :=
    length (filter (λ m, receiver m = V ∧ read m = false) conv) in
  clients_get (clients w) V = Some ws →
  users_at (users (db w)) (find_username (users (db w)) V) = Some vu →
  Str C ∈ contacts vu →
  find_username (users (db w)) C = Some cname →
  NoDup (id <$> conv) →
  ∃ details e,
    sendContactListUpdate V w
    = (Done tt, log (Sent ws (EContactList details)) w)
    ∧ contactDetail_of (db w) (clients w) V C = Some e
    ∧ e ∈ details
    ∧ cd_username e = Some cname
    ∧ cd_userCode e = C
    ∧ cd_unreadCount e = count
    ∧ (∀ t ws', ∃ w' e',
         handleSendMessage C V t ws' w = (Done tt, w')
         ∧ contactDetail_of (db w') (clients w') V C = Some e'
         ∧ cd_unreadCount e' = S count)
    ∧ (∃ w' e',
         read_all V C (unread_ids (db w) V C) w = (Done tt, w')
         ∧ contactDetail_of (db w') (clients w') V C = Some e'
         ∧ cd_unreadCount e' = 0).
Proof.
  intros conv count Hws Hvu HC Hc Hnd.
  destruct (find_username_Some _ _ _ Hc) as (cu & Hcu & Hcode).
  assert (Hdet : ∀ d cs, users d = users (db w) →
            contactDetail_of d cs V C
            = Some (ContactDetail (Some cname) C (clients_has cs C)
                                  (unreadCount d V C))).
  { intros d cs Hus. unfold contactDetail_of, users_at.
    rewrite Hus, Hc. simpl. by rewrite Hcu, Hcode. }
  eexists _, _. split_and!.
  - by apply sendContactListUpdate_run.
  - by apply Hdet.
  - apply list_elem_of_omap. exists (Str C). split; [done|]. by apply Hdet.
  - done.
  - done.
  - done.
  - intros t ws'.
    destruct (handleSendMessage_run w C V t ws')
      as (w' & Hrun & Hch & Hus & _ & _).
    eexists w', _. split_and!; [done|by apply Hdet|]. simpl.
    unfold unreadCount. rewrite Hch, (getChatKey_comm C V), lookup_insert_eq.
    simpl. fold conv. rewrite filter_app, length_app. simpl.
    rewrite filter_cons, decide_True by done. simpl. subst count.
    unfold unread_for. lia.
  - destruct (chats (db w) !! getChatKey V C) as [chat|] eqn:Hchat.
    + destruct (read_all_run V C (unread_ids (db w) V C) w chat Hchat)
        as (w' & Hrun & Hus & _ & Hch); [exact Hnd|].
      eexists w', _. split_and!; [done|by apply Hdet|]. simpl.
      unfold unreadCount. rewrite Hch. simpl.
      unfold unread_ids. rewrite Hchat. simpl.
      by rewrite unread_after_marking.
    + exists w. eexists. split_and!; [|by apply Hdet|].
      * unfold unread_ids. by rewrite Hchat.
      * simpl. unfold unreadCount. by rewrite Hchat.
Qed.

Lemma unread_count_reported_witness :
  let w := Scenario.chatting in
  ∃ e,
    contactDetail_of (db w) (clients w) "XYZ789" "ABC123" = Some e
    ∧ cd_unreadCount e = 1
    ∧ (∃ w' e',
         handleSendMessage "ABC123" "XYZ789" "again" 3 w = (Done tt, w')
         ∧ contactDetail_of (db w') (clients w') "XYZ789" "ABC123" = Some e'
         ∧ cd_unreadCount e' = 2)
    ∧ (∃ w' e',
         read_all "XYZ789" "ABC123" ["m-1"] w = (Done tt, w')
         ∧ contactDetail_of (db w') (clients w') "XYZ789" "ABC123" = Some e'
         ∧ cd_unreadCount e' = 0).
Proof.
  intros w.
  destruct (unread_count_reported w "XYZ789" "ABC123" 7 Scenario.bob "alice")
    as (details & e & _ & He & _ & _ & _ & Hcount & Hsend & Hread).
  - reflexivity.
  - reflexivity.
  - apply list_elem_of_singleton. reflexivity.
  - reflexivity.
  - simpl. apply NoDup_singleton.
  - exists e. split_and!; [exact He|exact Hcount|apply Hsend|exact Hread].
Defined.

(** ** The accounts table *)

Lemma users_own_replace_eq (us : list (string * user)) (k : string)
    (u u0 : user) :
  users_own us k = Some u0 → users_own (users_replace k u us) k = Some u.
Proof.
  induction us as [|[k' u'] us IH]; simpl; [done|].
  destruct (String.eqb k' k) eqn:E; simpl; rewrite E; [done|apply IH].
Qed.

Lemma users_own_replace_ne (us : list (string * user)) (k k' : string)
    (u : user) :
  k ≠ k' → users_own (users_replace k u us) k' = users_own us k'.
Proof.
  intros Hne. induction us as [|[k0 u0] us IH]; simpl; [done|].
  destruct (String.eqb k0 k) eqn:E; simpl.
  - apply String.eqb_eq in E as ->.
    by rewrite (proj2 (String.eqb_neq k k')).
  - by rewrite IH.
Qed.

Lemma users_replace_keys (us : list (string * user)) (k : string) (u : user) :
  map fst (users_replace k u us) = map fst us.
Proof.
  induction us as [|[k0 u0] us IH]; simpl; [done|].
  destruct (String.eqb k0 k); simpl; by rewrite ?IH.
Qed.

Lemma find_pointwise {A} (f g : A → bool) (l : list A) :
  (∀ a, f a = g a) → List.find f l = List.find g l.
Proof.
  intros H. induction l as [|a l IH]; simpl; [done|].
  by rewrite H, IH.
Qed.

Lemma find_username_replace (us : list (string * user)) (k : string)
    (u u0 : user) (c : field) :
  users_own us k = Some u0 → userCode u = userCode u0 →
  find_username (users_replace k u us) c = find_username us c.
Proof.
  intros Hk Hcode. unfold find_username. rewrite users_replace_keys.
  apply find_pointwise. intros k'.
  destruct (decide (k = k')) as [<-|Hne].
  - by rewrite (users_own_replace_eq us k u u0), Hk, Hcode.
  - by rewrite users_own_replace_ne.
Qed.

Lemma find_username_inj (us : list (string * user)) (c c' n n' : string) :
  find_username us c = Some n → find_username us c' = Some n' →
  c ≠ c' → n ≠ n'.
Proof.
  intros (u & Hu & <-)%find_username_Some (u' & Hu' & <-)%find_username_Some.
  intros Hne ->. congruence.
Qed.

(** ** [handleAddContact] *)

Lemma bind_Done {A B} (m : M A) (k : A → M B) (w w' : world) (a : A) :
  m w = (Done a, w') → (m ≫= k) w = k a w'.
Proof. intros H. unfold mbind, M_bind. by rewrite H. Qed.

Lemma push_contact_run (w : world) (n : string) (code : field) (u : user) :
  users_own (users (db w)) n = Some u →
  ∃ w' u',
    push_contact (Some n) code w = (Done tt, w')
    ∧ users_own (users (db w')) n = Some u'
    ∧ userCode u' = userCode u
    ∧ code ∈ contacts u'
    ∧ (∀ c, c ∈ contacts u → c ∈ contacts u')
    ∧ (∀ n', n' ≠ n →
         users_own (users (db w')) n' = users_own (users (db w)) n')
    ∧ (∀ c, find_username (users (db w')) c = find_username (users (db w)) c)
    ∧ chats (db w') = chats (db w)
    ∧ clients w' = clients w
    ∧ trace w' = trace w
    ∧ (code ∈ contacts u → w' = w).
Proof.
  intros Hu. unfold push_contact, users_at. run. simpl. rewrite Hu.
  destruct (bool_decide (code ∈ contacts u)) eqn:Hin.
  - apply bool_decide_eq_true in Hin.
    exists w, u. by split_and!.
  - apply bool_decide_eq_false in Hin. run. unfold users_set. rewrite Hu.
    eexists _, _. split_and!; [reflexivity|simpl..].
    + by eapply users_own_replace_eq.
    + done.
    + simpl. apply elem_of_app. right. by left.
    + intros c Hc. simpl. apply elem_of_app. by left.
    + intros n' Hne. by apply users_own_replace_ne.
    + intros c. by eapply find_username_replace.
    + done.
    + done.
    + done.
    + done.
Qed.

Lemma sendContactListUpdate_silent (code : field) (w : world) :
  ∃ w' new, sendContactListUpdate code w = (Done tt, w')
        ∧ db w' = db w ∧ clients w' = clients w
        ∧ trace w' = trace w ++ new
        ∧ Forall (λ e, ∃ to d, e = Sent to (EContactList d)) new.
Proof.
  unfold sendContactListUpdate. run.
  destruct (clients_get (clients w) code) as [ws|].
  - destruct (users_at _ _).
    + eexists _, [_]. split_and!; try done. repeat constructor. by eexists _, _.
    + exists w, []. split_and!; try done. by rewrite app_nil_r.
  - exists w, []. split_and!; try done. by rewrite app_nil_r.
Qed.

(** The tail of [handleAddContact] after the two pushes. *)
Lemma addContact_notify (A B : field) (w : world) :
  ∃ w' new,
    (saveDatabase;; sendContactListUpdate A;;
     cs ← gets clients;
     match clients_get cs B with
     | Some _ => sendContactListUpdate B
     | None => mret tt
     end) w = (Done tt, w')
    ∧ db w' = db w ∧ clients w' = clients w
    ∧ trace w' = trace w ++ Saved (db w) :: new
    ∧ Forall (λ e, ∃ to d, e = Sent to (EContactList d)) new.
Proof.
  destruct (sendContactListUpdate_silent A (log (Saved (db w)) w))
    as (w1 & new1 & Hrun1 & Hdb1 & Hcl1 & Htr1 & Hnew1).
  destruct (sendContactListUpdate_silent B w1)
    as (w2 & new2 & Hrun2 & Hdb2 & Hcl2 & Htr2 & Hnew2).
  simpl in Hdb1, Hcl1, Htr1. rewrite <- app_assoc in Htr1. simpl in Htr1.
  erewrite bind_Done by reflexivity.
  erewrite bind_Done by exact Hrun1.
  erewrite bind_Done by reflexivity.
  destruct (clients_get (clients w1) B).
  - exists w2, (new1 ++ new2). split_and!; [done|congruence..| |].
    + by rewrite Htr2, Htr1, <- app_assoc.
    + by apply Forall_app.
  - exists w1, new1. by split_and!.
Qed.

Lemma handleAddContact_accept (w : world) (A B : field) (ws : conn)
    (ua ub : string) :
  find_username (users (db w)) A = Some ua →
  find_username (users (db w)) B = Some ub →
  ub ≠ "" → A ≠ B →
  handleAddContact A B ws w
  = (push_contact (Some ua) B;;
     push_contact (Some ub) A;;
     saveDatabase;; sendContactListUpdate A;;
     cs ← gets clients;
     match clients_get cs B with
     | Some _ => sendContactListUpdate B
     | None => mret tt
     end) w.
Proof.
  intros Ha Hb Hub Hne. unfold handleAddContact.
  erewrite bind_Done by reflexivity. rewrite Ha, Hb. simpl.
  by rewrite (proj2 (String.eqb_neq ub "")), (proj2 (field_eqb_neq A B)).
Qed.

(** An accepted addContact whose two edges are already there leaves the
    database as it is. *)
Lemma handleAddContact_again (w : world) (A B : field) (ws : conn)
    (ua ub : string) (a b : user) :
  find_username (users (db w)) A = Some ua →
  find_username (users (db w)) B = Some ub →
  A ≠ B →
  users_own (users (db w)) ua = Some a → B ∈ contacts a →
  users_own (users (db w)) ub = Some b → A ∈ contacts b →
  ∃ w', handleAddContact A B ws w = (Done tt, w') ∧ db w' = db w.
Proof.
  intros Ha Hb Hne Hua HB Hub HA.
  destruct (decide (ub = "")) as [->|Hnonempty].
  - unfold handleAddContact. erewrite bind_Done by reflexivity.
    rewrite Hb. simpl. by eexists.
  - rewrite (handleAddContact_accept w A B ws ua ub) by done.
    destruct (push_contact_run w ua B a Hua)
      as (w1 & a1 & Hrun1 & _ & _ & _ & _ & _ & _ & _ & _ & _ & Hsame1).
    rewrite (Hsame1 HB) in Hrun1.
    destruct (push_contact_run w ub A b Hub)
      as (w2 & b2 & Hrun2 & _ & _ & _ & _ & _ & _ & _ & _ & _ & Hsame2).
    rewrite (Hsame2 HA) in Hrun2.
    erewrite bind_Done by exact Hrun1.
    erewrite bind_Done by exact Hrun2.
    destruct (addContact_notify A B w) as (w' & new & Hrun & Hdb & _).
    by exists w'.
Qed.

(** C4. For two existing accounts with distinct codes [A] and [B], an
    accepted addContact(A, B) (the target account is found under a
    non-empty user name) ends with [B] in the contact list of [A]'s
    account and [A] in the contact list of [B]'s account, both written in
    the one store write of the operation; after it, another
    addContact(A, B) and an addContact(B, A) leave the database, hence
    both contact lists, as they are. *)
Theorem addContact_symmetric_idempotent
    (w : world) (A B : string) (ws : conn) (ua ub : string) :
  A ≠ B →
  find_username (users (db w)) A = Some ua →
  find_username (users (db w)) B = Some ub →
  ub ≠ "" →
  ∃ w1 a b new,
    handleAddContact A B ws w = (Done tt, w1)
    ∧ users_own (users (db w1)) ua = Some a ∧ userCode a = A
    ∧ Str B ∈ contacts a
    ∧ users_own (users (db w1)) ub = Some b ∧ userCode b = B
    ∧ Str A ∈ contacts b
    ∧ trace w1 = trace w ++ Saved (db w1) :: new
    ∧ Forall (λ e, ∃ to d, e = Sent to (EContactList d)) new
    ∧ (∀ ws', ∃ w2, handleAddContact A B ws' w1 = (Done tt, w2)
                    ∧ db w2 = db w1)
    ∧ (∀ ws', ∃ w3, handleAddContact B A ws' w1 = (Done tt, w3)
                    ∧ db w3 = db w1).
Proof.
  intros Hne Ha Hb Hub.
  assert (Hne' : Str A ≠ Str B) by congruence.
  assert (Hne'' : Str B ≠ Str A) by congruence.
  pose proof (find_username_inj _ _ _ _ _ Ha Hb Hne) as Hnames.
  destruct (find_username_Some _ _ _ Ha) as (a0 & Ha0 & Hca).
  destruct (find_username_Some _ _ _ Hb) as (b0 & Hb0 & Hcb).
  rewrite (handleAddContact_accept w A B ws ua ub) by done.
  destruct (push_contact_run w ua B a0 Ha0)
    as (w1 & a & Hrun1 & Hua1 & Hcode1 & HB & _ & Hoth1 & Hfind1 & _ & _
        & Htr1 & _).
  assert (Hub1 : users_own (users (db w1)) ub = Some b0).
  { rewrite Hoth1; [done|]. by intros ->. }
  destruct (push_contact_run w1 ub A b0 Hub1)
    as (w2 & b & Hrun2 & Hub2 & Hcode2 & HA & _ & Hoth2 & Hfind2 & _ & _
        & Htr2 & _).
  assert (Hua2 : users_own (users (db w2)) ua = Some a).
  { rewrite Hoth2; [done|]. by intros ->. }
  destruct (addContact_notify A B w2)
    as (w3 & new & Hrun3 & Hdb3 & _ & Htr3 & Hnew).
  erewrite bind_Done by exact Hrun1.
  erewrite bind_Done by exact Hrun2.
  assert (Ha3 : find_username (users (db w3)) A = Some ua).
  { by rewrite Hdb3, Hfind2, Hfind1. }
  assert (Hb3 : find_username (users (db w3)) B = Some ub).
  { by rewrite Hdb3, Hfind2, Hfind1. }
  assert (Hua3 : users_own (users (db w3)) ua = Some a) by by rewrite Hdb3.
  assert (Hub3 : users_own (users (db w3)) ub = Some b) by by rewrite Hdb3.
  exists w3, a, b, new. split_and!; try done.
  - congruence.
  - congruence.
  - by rewrite Hdb3, Htr3, Htr2, Htr1.
  - intros ws'.
    by apply (handleAddContact_again w3 A B ws' ua ub a b).
  - intros ws'.
    by apply (handleAddContact_again w3 B A ws' ub ua b a).
Qed.

Lemma addContact_symmetric_idempotent_witness :
  let w := Scenario.strangers in
  ∃ w1,
    handleAddContact "ABC123" "XYZ789" 3 w = (Done tt, w1)
    ∧ users (db w1)
      = [("alice", User "pw1" "ABC123" [Str "XYZ789"]);
         ("bob", User "pw2" "XYZ789" [Str "ABC123"])]
    ∧ (∃ w2, handleAddContact "XYZ789" "ABC123" 3 w1 = (Done tt, w2)
             ∧ db w2 = db w1).
Proof.
  intros w.
  destruct (addContact_symmetric_idempotent w "ABC123" "XYZ789" 3
              "alice" "bob")
    as (w1 & a & b & new & Hrun & _ & _ & _ & _ & _ & _ & _ & _ & _ & Hrev);
    [done..|].
  exists w1. split; [exact Hrun|]. split; [|apply Hrev].
  vm_compute in Hrun. by injection Hrun as <-.
Defined.

(** C7, as stated, fails in its last clause: the reply to a rejected
    addContact is not an [addContactError] frame.  With two accounts and
    a target code of no account, the reply is of type ["error"]. *)
Lemma addContact_reply_is_not_addContactError :
  ¬ (∃ w' e,
       handleAddContact "ABC123" "NOBODY" 3 Scenario.strangers = (Done tt, w')
       ∧ trace w' = trace Scenario.strangers ++ [Sent 3 e]
       ∧ envelope_type e = "addContactError").
Proof.
  intros (w' & e & Hrun & Htr & Hty).
  vm_compute in Hrun. injection Hrun as <-.
  simpl in Htr. injection Htr as <-. discriminate.
Qed.

(** C7, amended. An addContact whose target code matches no account, or
    whose target code is the requester's own code, is rejected: the only
    thing the handler does is to send one [error{message}] frame to the
    caller.  No contact list changes, nothing is written, and no contact
    list or presence frame is sent. *)
Theorem addContact_rejected
    (fuel : nat) (w : world) (A T : string) (ws : conn) :
  find_username (users (db w)) T = None ∨ A = T →
  ∃ msg,
    handleAddContact A T ws w = (Done tt, log (Sent ws (EError msg)) w)
    ∧ on_message fuel (AddContact A T) ws w
      = (Done tt, log (Sent ws (EError msg)) w)
    ∧ envelope_type (EError msg) = "error"
    ∧ db (log (Sent ws (EError msg)) w) = db w
    ∧ clients (log (Sent ws (EError msg)) w) = clients w
    ∧ trace (log (Sent ws (EError msg)) w) = trace w ++ [Sent ws (EError msg)].
Proof.
  intros H.
  assert (Hrun : ∃ msg, handleAddContact A T ws w
                        = (Done tt, log (Sent ws (EError msg)) w)).
  { unfold handleAddContact. erewrite bind_Done by reflexivity.
    destruct (falsy_name (find_username (users (db w)) T)) eqn:Hf.
    - by eexists.
    - destruct H as [HT| ->]; [by rewrite HT in Hf|].
      rewrite field_eqb_refl. by eexists. }
  destruct Hrun as [msg Hrun]. exists msg. split_and!; try done.
  rewrite on_message_request. simpl. by rewrite Hrun.
Qed.

Lemma addContact_rejected_witness :
  (∃ msg, handleAddContact "ABC123" "NOBODY" 3 Scenario.strangers
          = (Done tt, log (Sent 3 (EError msg)) Scenario.strangers))
  ∧ (∃ msg, handleAddContact "ABC123" "ABC123" 3 Scenario.strangers
            = (Done tt, log (Sent 3 (EError msg)) Scenario.strangers)).
Proof.
  split.
  - destruct (addContact_rejected 0 Scenario.strangers "ABC123" "NOBODY" 3)
      as (msg & Hrun & _); [left; reflexivity|].
    by exists msg.
  - destruct (addContact_rejected 0 Scenario.strangers "ABC123" "ABC123" 3)
      as (msg & Hrun & _); [right; reflexivity|].
    by exists msg.
Defined.

(** ** [handleSignup] and [generateUserCode] *)

(** C5, the code against it. When [Math.random()] returns [0.5], whose
    radix-36 numeral is ["0.i"], [substring(2, 8)] has a single character
    to take: the sign-up succeeds and the account is stored with the
    one-character code ["I"], announced to the caller. *)
Theorem signup_code_shorter_than_six :
  ∃ w',
    handleSignup 1 "carol" "pw" 4 Scenario.boot_half = (Done tt, w')
    ∧ users (db w') = [("carol", User "pw" "I" [])]
    ∧ trace w' = [Saved (db w'); Sent 4 (ESignupSuccess "I")]
    ∧ String.length "I" ≠ 6.
Proof.
  eexists. split_and!; [vm_compute; reflexivity|done..].
Qed.

Lemma length_toUpperCase (s : string) :
  String.length (JS.toUpperCase s) = String.length s.
Proof. induction s; simpl; congruence. Qed.

Lemma length_substring_le (n m : nat) (s : string) :
  String.length (String.substring n m s) ≤ m.
Proof.
  revert n m. induction s as [|c s IH]; intros [|n] [|m]; simpl; try lia.
  - specialize (IH 0 m). lia.
  - apply (IH n 0).
  - apply (IH n (S m)).
Qed.

Lemma length_code_of_draw (r : string) : String.length (code_of_draw r) ≤ 6.
Proof.
  unfold code_of_draw, JS.substring. rewrite length_toUpperCase.
  apply (length_substring_le 2 6).
Qed.

Lemma code_char_upper (c : ascii) :
  radix36_digit c = true → code_char (JS.upper_ascii c) = true.
Proof.
  destruct c as [[] [] [] [] [] [] [] []]; vm_compute; congruence.
Qed.

Lemma all_chars_substring (p : ascii → bool) (n m : nat) (s : string) :
  all_chars p s = true → all_chars p (String.substring n m s) = true.
Proof.
  revert n m. induction s as [|c s IH]; intros [|n] [|m]; simpl; try done.
  - intros [? ?]%andb_true_iff. apply andb_true_iff. split; [done|by apply IH].
  - intros [? ?]%andb_true_iff. by apply IH.
  - intros [? ?]%andb_true_iff. by apply IH.
Qed.

Lemma all_chars_upper (s : string) :
  all_chars radix36_digit s = true →
  all_chars code_char (JS.toUpperCase s) = true.
Proof.
  induction s as [|c s IH]; simpl; [done|].
  intros [? ?]%andb_true_iff. apply andb_true_iff.
  split; [by apply code_char_upper|by apply IH].
Qed.

(** X15. The code made of a radix-36 fraction ["0." ++ digits] is drawn
    from the digits and the capital letters and has as many characters as
    there are digits, up to six. *)
Lemma code_of_fraction (digits : string) :
  all_chars radix36_digit digits = true →
  all_chars code_char (code_of_draw ("0." +:+ digits)) = true
  ∧ String.length (code_of_draw ("0." +:+ digits))
    = String.length digits `min` 6.
Proof.
  intros Hd. unfold code_of_draw, JS.substring. simpl.
  split.
  - by apply all_chars_upper, all_chars_substring.
  - rewrite length_toUpperCase. clear Hd.
    do 6 (destruct digits as [|? digits]; [done|]).
    destruct digits; simpl; lia.
Qed.

Lemma generateUserCode_loop_finds (existing : gset string) (k : nat) :
  ∀ (fuel : nat) (w : world),
    k < fuel →
    (∀ j, j < k →
       code_of_draw (random_seq (env w) (n_random w + j)) ∈ existing) →
    code_of_draw (random_seq (env w) (n_random w + k)) ∉ existing →
    generateUserCode_loop fuel existing w
    = (Done (code_of_draw (random_seq (env w) (n_random w + k))),
       World (db w) (clients w) (wsUserCode w) (trace w) (env w)
             (n_uuid w) (n_clock w) (n_random w + S k)).
Proof.
  induction k as [|k IH]; intros [|fuel] w Hfuel Hbusy Hfree; try lia.
  - simpl. run. fold (code_of_draw (random_seq (env w) (n_random w))).
    rewrite Nat.add_0_r in Hfree. rewrite bool_decide_eq_false_2 by done.
    unfold tick_random. simpl. by rewrite Nat.add_1_r, Nat.add_0_r.
  - simpl. run. fold (code_of_draw (random_seq (env w) (n_random w))).
    rewrite bool_decide_eq_true_2.
    2:{ specialize (Hbusy 0). rewrite Nat.add_0_r in Hbusy. apply Hbusy. lia. }
    rewrite (IH fuel (tick_random w)); simpl.
    + by rewrite !Nat.add_succ_r.
    + lia.
    + intros j Hj. specialize (Hbusy (S j)).
      rewrite Nat.add_succ_r in Hbusy. apply Hbusy. lia.
    + by rewrite Nat.add_succ_r in Hfree.
Qed.

Lemma users_own_add (us : list (string * user)) (k k' : string) (u : user) :
  users_own us k = None →
  users_own (users_add k u us) k'
  = if String.eqb k k' then Some u else users_own us k'.
Proof.
  induction us as [|[k0 u0] us IH]; simpl; [done|].
  destruct (String.eqb k0 k) eqn:E0; [done|]. intros Hnone.
  assert (Hskip : users_own ((k, u) :: (k0, u0) :: us) k'
                  = if String.eqb k k' then Some u
                    else users_own ((k0, u0) :: us) k') by done.
  assert (Hgo : users_own ((k0, u0) :: users_add k u us) k'
                = if String.eqb k k' then Some u
                  else users_own ((k0, u0) :: us) k').
  { simpl. rewrite IH by done.
    destruct (String.eqb k0 k') eqn:E1, (String.eqb k k') eqn:E2; try done.
    apply String.eqb_eq in E1, E2. subst.
    by rewrite String.eqb_refl in E0. }
  destruct (JS.array_index k) as [n|], (JS.array_index k0) as [n0|];
    try destruct (n <? n0)%N; done.
Qed.

Lemma existing_codes_spec (us : list (string * user)) (n : string) (u : user) :
  users_own us n = Some u → userCode u ∈ existing_codes us.
Proof.
  unfold existing_codes. intros H. apply elem_of_list_to_set.
  induction us as [|[k0 u0] us IH]; simpl in *; [done|].
  destruct (String.eqb k0 n).
  - injection H as ->. by left.
  - right. by apply IH.
Qed.

(** X13. Sign-up under a taken user name: the one reply is the error
    frame and nothing changes. *)
Lemma signup_duplicate (fuel : nat) (w : world) (username pw : string)
    (ws : conn) (u : user) :
  users_own (users (db w)) username = Some u →
  handleSignup fuel username pw ws w
  = (Done tt, log (Sent ws (EError "Username already exists.")) w).
Proof.
  intros Hu. unfold handleSignup. erewrite bind_Done by reflexivity.
  unfold users_get. cbn [prop_key]. by rewrite Hu.
Qed.

(** X14. Sign-up under a free user name (one that is not a property of
    [Object.prototype] either), when the [k]-th draw is the first whose
    code no account has and the loop is given the turns to reach it: the
    account is stored with that code and no contacts, the store is
    written, the code is sent to the caller, and the registry is left
    alone.  The code has at most six characters. *)
Lemma signup_allocates (fuel : nat) (w : world) (username pw : string)
    (ws : conn) (k : nat) :
  let us := users (db w) in
  let code := code_of_draw (random_seq (env w) (n_random w + k)) in
  users_get us username = Undefined →
  k < fuel →
  (∀ j, j < k → code_of_draw (random_seq (env w) (n_random w + j))
                ∈ existing_codes us) →
  code ∉ existing_codes us →
  ∃ w',
    handleSignup fuel username pw ws w = (Done tt, w')
    ∧ (∀ n u, users_own us n = Some u → userCode u ≠ code)
    ∧ users_own (users (db w')) username = Some (User pw code [])
    ∧ (∀ n, n ≠ username → users_own (users (db w')) n = users_own us n)
    ∧ chats (db w') = chats (db w)
    ∧ clients w' = clients w
    ∧ trace w' = trace w ++ [Saved (db w'); Sent ws (ESignupSuccess code)]
    ∧ String.length code ≤ 6.
Proof.
  intros us code Hfree Hfuel Hbusy Hcode.
  assert (Hnone : users_own us username = None).
  { unfold users_get in Hfree. by destruct (users_own us username). }
  unfold handleSignup. erewrite bind_Done by reflexivity.
  cbn [prop_key]. fold us. rewrite Hfree. simpl.
  erewrite bind_Done.
  2:{ unfold generateUserCode. erewrite bind_Done by reflexivity.
      by apply (generateUserCode_loop_finds _ k). }
  fold code. run. simpl.
  eexists. split_and!; [reflexivity|..]; simpl.
  - intros n u Hu <-. by apply Hcode, (existing_codes_spec us n).
  - unfold users_set. rewrite Hnone, users_own_add by done.
    by rewrite String.eqb_refl.
  - intros n Hn. unfold users_set. rewrite Hnone, users_own_add by done.
    by rewrite (proj2 (String.eqb_neq username n)).
  - done.
  - done.
  - by rewrite <- app_assoc.
  - apply length_code_of_draw.
Qed.

Lemma users_get_found (us : list (string * user)) (c : field) :
  users_get us (key_of (find_username us c))
  = match users_at us (find_username us c) with
    | Some u => OwnUser u
    | None => Undefined
    end.
Proof.
  unfold users_get, users_at.
  destruct (users_own us (key_of (find_username us c))) eqn:Hown; [done|].
  destruct (find_username us c) as [n|] eqn:Hfind; simpl in *.
  - apply find_username_field in Hfind as (u & Hu & _). congruence.
  - done.
Qed.

(** A user name that [Object.prototype] knows is taken from the start. *)
Example signup_inherited_name :
  handleSignup 1 "constructor" "pw" 4 Scenario.boot
  = (Done tt, log (Sent 4 (EError "Username already exists.")) Scenario.boot).
Proof. reflexivity. Qed.

(** ** Closing a connection *)

(** C6, the code against it. Two accounts log in, one after the other, on
    the same socket; the registry then has two entries that point at it.
    When that socket closes, the loop removes the first of them and
    stops: the code of the second account is still in the registry, bound
    to the closed socket, and still counts as online. *)
Theorem close_leaves_second_binding :
  ∃ w w',
    run_events 1 Scenario.shared_socket Scenario.boot = (Done tt, w)
    ∧ clients w = [(Str "ABC123", 1); (Str "ZZZZZZ", 1)]
    ∧ on_close 1 w = (Done tt, w')
    ∧ clients w' = [(Str "ZZZZZZ", 1)]
    ∧ clients_get (clients w') "ZZZZZZ" = Some 1
    ∧ clients_has (clients w') "ZZZZZZ" = true.
Proof.
  eexists _, _. split_and!; [vm_compute; reflexivity|done..].
Qed.

Lemma close_scan_stale (entries : list (field * conn)) (ws : conn)
    (w : world) :
  Forall (λ p, p.2 ≠ ws) entries → close_scan entries ws w = (Done tt, w).
Proof.
  induction 1 as [|[code c] entries Hc _ IH]; simpl; [done|].
  simpl in Hc. by rewrite (proj2 (Nat.eqb_neq c ws)).
Qed.

(** X11. A close of a socket that no registry entry points at (for one,
    a socket whose code was since bound to a newer socket) removes nothing
    and sends nothing. *)
Lemma on_close_stale (ws : conn) (w : world) :
  Forall (λ p, p.2 ≠ ws) (clients w) → on_close ws w = (Done tt, w).
Proof.
  intros H. unfold on_close. erewrite bind_Done by reflexivity.
  by apply close_scan_stale.
Qed.

Lemma close_scan_first (pre post : list (field * conn)) (code : field)
    (ws : conn) (w : world) :
  Forall (λ p, p.2 ≠ ws) pre →
  close_scan (pre ++ (code, ws) :: post) ws w
  = broadcastOnlineStatus code false
      (set_clients (clients_delete code (clients w)) w).
Proof.
  induction 1 as [|[code' c] pre Hc _ IH]; simpl.
  - rewrite Nat.eqb_refl. by erewrite bind_Done by reflexivity.
  - simpl in Hc. by rewrite (proj2 (Nat.eqb_neq c ws)).
Qed.

Lemma clients_get_delete (cs : list (field * conn)) (code : field) :
  NoDup cs.*1 → clients_get (clients_delete code cs) code = None.
Proof.
  induction cs as [|[k c] cs IH]; simpl; [done|].
  intros [Hk Hnd]%NoDup_cons.
  destruct (field_eqb k code) eqn:E; simpl.
  - apply field_eqb_eq in E as ->. clear IH.
    induction cs as [|[k' c'] cs IH]; simpl; [done|].
    destruct (field_eqb k' code) eqn:E'.
    + apply field_eqb_eq in E' as ->. exfalso. apply Hk. simpl. by left.
    + apply IH.
      * intros Hin. apply Hk. simpl. by right.
      * by apply NoDup_cons in Hnd as [_ ?].
  - rewrite E. by apply IH.
Qed.

Lemma clients_get_delete_ne (cs : list (field * conn)) (code code' : field) :
  code ≠ code' →
  clients_get (clients_delete code cs) code' = clients_get cs code'.
Proof.
  intros Hne. induction cs as [|[k c] cs IH]; simpl; [done|].
  destruct (field_eqb k code) eqn:E; simpl.
  - apply field_eqb_eq in E as ->.
    by rewrite (proj2 (field_eqb_neq code code')).
  - by rewrite IH.
Qed.

Lemma filter_contactList_frames (new : list effect) :
  Forall (λ e, ∃ to d, e = Sent to (EContactList d)) new →
  filter is_onlineStatus new = [].
Proof.
  induction 1 as [|e new (to & d & ->) _ IH]; [done|].
  rewrite filter_cons, IH. by destruct (decide _).
Qed.

Lemma notify_contact_run (code : field) (b : bool) (c : field) (w : world) :
  ∃ w' new,
    notify_contact code b c w = (Done tt, w')
    ∧ db w' = db w ∧ clients w' = clients w
    ∧ trace w' = trace w ++ new
    ∧ filter is_onlineStatus new
      = option_list (status_frame (clients w) code b c).
Proof.
  unfold notify_contact, status_frame.
  erewrite bind_Done by reflexivity.
  destruct (clients_get (clients w) c) as [cws|]; simpl.
  - destruct (sendContactListUpdate_silent c
                (log (Sent cws (EOnlineStatus code b)) w))
      as (w' & new & Hrun & Hdb & Hcl & Htr & Hnew).
    erewrite bind_Done by reflexivity.
    exists w', (Sent cws (EOnlineStatus code b) :: new).
    split_and!; try done.
    + rewrite Htr. simpl. by rewrite <- app_assoc.
    + rewrite filter_cons, filter_contactList_frames by done.
      by destruct (decide _).
  - exists w, []. split_and!; try done. by rewrite app_nil_r.
Qed.

Lemma forEach_notify_run (code : field) (b : bool) (cs : list field) :
  ∀ w : world,
    ∃ w' new,
      forEach cs (notify_contact code b) w = (Done tt, w')
      ∧ db w' = db w ∧ clients w' = clients w
      ∧ trace w' = trace w ++ new
      ∧ filter is_onlineStatus new
        = omap (status_frame (clients w) code b) cs.
Proof.
  induction cs as [|c cs IH]; intros w.
  - exists w, []. split_and!; try done. by rewrite app_nil_r.
  - destruct (notify_contact_run code b c w)
      as (w1 & new1 & Hrun1 & Hdb1 & Hcl1 & Htr1 & Hnew1).
    destruct (IH w1) as (w2 & new2 & Hrun2 & Hdb2 & Hcl2 & Htr2 & Hnew2).
    exists w2, (new1 ++ new2). split_and!; try congruence.
    + simpl. by erewrite bind_Done by exact Hrun1.
    + by rewrite Htr2, Htr1, <- app_assoc.
    + rewrite filter_app, Hnew1, Hnew2, Hcl1. simpl.
      unfold status_frame. by destruct (clients_get (clients w) c).
Qed.

(** X12. A close of a socket when the first registry entry that points
    at it has the code of an account: that entry is removed (so the code
    is offline at once, the registry having one entry per code), the
    database is left alone, and the presence frames sent are one
    [onlineStatus] with [isOnline = false] for each contact of that
    account that the registry knows at that moment, in the order of the
    contact list (and none for the others). *)
Lemma on_close_unbinds_and_broadcasts
    (w : world) (ws : conn) (pre post : list (field * conn))
    (code n : string) (u : user) :
  clients w = pre ++ (Str code, ws) :: post →
  Forall (λ p, p.2 ≠ ws) pre →
  find_username (users (db w)) code = Some n →
  n ≠ "" →
  users_own (users (db w)) n = Some u →
  ∃ w' new,
    on_close ws w = (Done tt, w')
    ∧ clients w' = clients_delete code (clients w)
    ∧ (NoDup (clients w).*1 → clients_has (clients w') code = false)
    ∧ db w' = db w
    ∧ trace w' = trace w ++ new
    ∧ filter is_onlineStatus new
      = omap (status_frame (clients w') code false) (contacts u).
Proof.
  intros Hcs Hpre Hfind Hn Hu.
  unfold on_close. erewrite bind_Done by reflexivity.
  rewrite Hcs, close_scan_first by done. rewrite <- Hcs.
  set (w0 := set_clients (clients_delete code (clients w)) w).
  destruct (forEach_notify_run code false (contacts u) w0)
    as (w' & new & Hrun & Hdb & Hcl & Htr & Hnew).
  exists w', new. split_and!; try done.
  - unfold broadcastOnlineStatus. erewrite bind_Done by reflexivity.
    simpl. rewrite Hfind. simpl.
    rewrite (proj2 (String.eqb_neq n "")) by done.
    unfold users_at. simpl. by rewrite Hu.
  - intros Hnd. rewrite Hcl. simpl. unfold clients_has.
    rewrite clients_get_delete by done.
    apply bool_decide_eq_false. by intros [? ?].
  - by rewrite Hcl.
Qed.

(** * Further properties of the server *)

(** ** Conversation keys and histories *)

Lemma getChatKey_cases (a b : string) :
  getChatKey a b = a +:+ String "-" b ∨ getChatKey a b = b +:+ String "-" a.
Proof.
  unfold getChatKey, JS.sort, JS.join. simpl.
  destruct (String.ltb b a); simpl; auto.
Qed.

(** X1. [getChatKey] does not depend on the order of its arguments, and
    the key is one code, a dash, and the other code. *)
Theorem chat_key_order_independent (a b : string) :
  getChatKey a b = getChatKey b a
  ∧ (getChatKey a b = a +:+ "-" +:+ b ∨ getChatKey a b = b +:+ "-" +:+ a).
Proof.
  split; [apply getChatKey_comm|apply getChatKey_cases].
Qed.

Lemma join_dash_inj (x x' y y' : string) :
  no_dash x = true → no_dash x' = true →
  x +:+ String "-" y = x' +:+ String "-" y' → x = x' ∧ y = y'.
Proof.
  unfold no_dash. revert x'.
  induction x as [|c x IH]; intros [|c' x']; simpl.
  - intros _ _ [= ->]. done.
  - intros _ Hx' [= <- _]. done.
  - intros Hx _ [= -> _]. done.
  - intros [_ Hx]%andb_true_iff [_ Hx']%andb_true_iff [= <- Heq].
    destruct (IH x' Hx Hx' Heq) as [-> ->]. done.
Qed.

(** X2. For codes that contain no dash (as the codes of
    [generateUserCode] do), two pairs of codes have the same conversation
    key only if they are the same pair, in one order or the other. *)
Theorem chat_key_injective (a b c d : string) :
  no_dash a = true → no_dash b = true →
  no_dash c = true → no_dash d = true →
  getChatKey a b = getChatKey c d →
  (a = c ∧ b = d) ∨ (a = d ∧ b = c).
Proof.
  intros Ha Hb Hc Hd Hkey.
  destruct (getChatKey_cases a b) as [Hab|Hab],
           (getChatKey_cases c d) as [Hcd|Hcd];
    rewrite Hab, Hcd in Hkey;
    apply join_dash_inj in Hkey as [-> ->]; auto.
Qed.

Lemma chat_key_injective_witness :
  ("ABC123" = "XYZ789" ∧ "XYZ789" = "ABC123")
  ∨ ("ABC123" = "ABC123" ∧ "XYZ789" = "XYZ789").
Proof.
  apply (chat_key_injective "ABC123" "XYZ789" "XYZ789" "ABC123");
    reflexivity.
Defined.

(** X3. A message sent from [A] to [B] is in the history both get
    afterwards: getChat by [B] for [A], and by [A] for [B], answers with
    one [chatHistory] frame holding the earlier messages of the
    conversation followed by the new one, still unread, and changes
    nothing (fetching the history marks nothing as read). *)
Theorem getChat_returns_sent_message
    (w : world) (A B t : string) (ws wsA wsB : conn) :
  let m := message_of w A B t in
  let old := default [] (chats (db w) !! getChatKey A B) in
  ∃ w1,
    handleSendMessage A B t ws w = (Done tt, w1)
    ∧ read m = false
    ∧ handleGetChat B A wsB w1
      = (Done tt,
         log (Sent wsB (EChatHistory (old ++ [m]) A
                          (clients_has (clients w) A))) w1)
    ∧ handleGetChat A B wsA w1
      = (Done tt,
         log (Sent wsA (EChatHistory (old ++ [m]) B
                          (clients_has (clients w) B))) w1).
Proof.
  intros m old.
  destruct (handleSendMessage_run w A B t ws)
    as (w1 & Hrun & Hch & _ & Hcl & _).
  exists w1. split_and!; [done..| |].
  - unfold handleGetChat. run.
    by rewrite (getChatKey_comm B A), Hch, lookup_insert_eq, Hcl.
  - unfold handleGetChat. run.
    by rewrite Hch, lookup_insert_eq, Hcl.
Qed.

(** X4. readMessage never checks who the reader is: with the roles of
    reader and message sender exchanged it runs to the end as well and
    leaves the same database and registry.  Any of the two parties of a
    conversation can mark any of its messages read. *)
Theorem readMessage_roles_interchangeable (w : world) (R M S : string) :
  (handleReadMessage R M S w).1 = Done tt
  ∧ (handleReadMessage S M R w).1 = Done tt
  ∧ db (handleReadMessage S M R w).2 = db (handleReadMessage R M S w).2
  ∧ clients (handleReadMessage S M R w).2
    = clients (handleReadMessage R M S w).2.
Proof.
  unfold handleReadMessage. run. rewrite (getChatKey_comm S R).
  destruct (chats (db w) !! getChatKey R S) as [chat|]; [|done].
  destruct (list_find _ chat) as [[k m]|]; [|done].
  destruct (read m); [done|]. run. simpl.
  by destruct (clients_get (clients w) S), (clients_get (clients w) R).
Qed.

(** ** Computations that only send frames *)

Lemma add_trace_nil (w : world) : add_trace [] w = w.
Proof. destruct w. unfold add_trace. simpl. by rewrite app_nil_r. Qed.

Lemma add_trace_app (a b : list effect) (w : world) :
  add_trace b (add_trace a w) = add_trace (a ++ b) w.
Proof. unfold add_trace. simpl. by rewrite app_assoc. Qed.

Lemma quiet_ret {A} (a : A) : quiet (mret a).
Proof. intros w. exists a, []. by rewrite add_trace_nil. Qed.

Lemma quiet_gets {A} (f : world → A) : quiet (gets f).
Proof. intros w. exists (f w), []. by rewrite add_trace_nil. Qed.

Lemma quiet_ws_send (ws : conn) (e : envelope) : quiet (ws_send ws e).
Proof. intros w. exists tt, [Sent ws e]. split; [done|]. by repeat constructor. Qed.

Lemma quiet_bind {A B} (m : M A) (k : A → M B) :
  quiet m → (∀ a, quiet (k a)) → quiet (m ≫= k).
Proof.
  intros Hm Hk w.
  destruct (Hm w) as (a & new1 & Hrun1 & Hnew1).
  destruct (Hk a (add_trace new1 w)) as (b & new2 & Hrun2 & Hnew2).
  exists b, (new1 ++ new2). split; [|by apply Forall_app].
  erewrite bind_Done by exact Hrun1. by rewrite Hrun2, add_trace_app.
Qed.

(** After [gets], the continuation may be examined at the value read. *)
Lemma quiet_gets_bind {A B} (f : world → A) (k : A → M B) :
  (∀ w, ∃ b new, k (f w) w = (Done b, add_trace new w) ∧ Forall is_sent new) →
  quiet (gets f ≫= k).
Proof.
  intros Hk w. destruct (Hk w) as (b & new & Hrun & Hnew).
  exists b, new. split; [|done]. by erewrite bind_Done by reflexivity.
Qed.

Lemma quiet_forEach {A} (l : list A) (f : A → M unit) :
  (∀ x, quiet (f x)) → quiet (forEach l f).
Proof.
  intros Hf. induction l as [|x l IH]; simpl.
  - apply quiet_ret.
  - apply quiet_bind; [apply Hf|]. intros _. apply IH.
Qed.

Lemma adds_ret (P : effect → Prop) {A} (a : A) : adds P (mret a).
Proof. intros w. exists a, []. by rewrite add_trace_nil. Qed.

Lemma adds_ws_send (P : effect → Prop) (ws : conn) (e : envelope) :
  P (Sent ws e) → adds P (ws_send ws e).
Proof. intros H w. exists tt, [Sent ws e]. split; [done|]. by repeat constructor. Qed.

Lemma adds_bind (P : effect → Prop) {A B} (m : M A) (k : A → M B) :
  adds P m → (∀ a, adds P (k a)) → adds P (m ≫= k).
Proof.
  intros Hm Hk w.
  destruct (Hm w) as (a & new1 & Hrun1 & Hnew1).
  destruct (Hk a (add_trace new1 w)) as (b & new2 & Hrun2 & Hnew2).
  exists b, (new1 ++ new2). split; [|by apply Forall_app].
  erewrite bind_Done by exact Hrun1. by rewrite Hrun2, add_trace_app.
Qed.

Lemma adds_gets_bind (P : effect → Prop) {A B} (f : world → A)
    (k : A → M B) :
  (∀ w, ∃ b new, k (f w) w = (Done b, add_trace new w) ∧ Forall P new) →
  adds P (gets f ≫= k).
Proof.
  intros Hk w. destruct (Hk w) as (b & new & Hrun & Hnew).
  exists b, new. split; [|done]. by erewrite bind_Done by reflexivity.
Qed.

Lemma adds_forEach (P : effect → Prop) {A} (l : list A) (f : A → M unit) :
  (∀ x, adds P (f x)) → adds P (forEach l f).
Proof.
  intros Hf. induction l as [|x l IH]; simpl.
  - apply adds_ret.
  - apply adds_bind; [apply Hf|]. intros _. apply IH.
Qed.

Lemma adds_weaken (P Q : effect → Prop) {A} (m : M A) :
  (∀ e, P e → Q e) → adds P m → adds Q m.
Proof.
  intros HPQ Hm w. destruct (Hm w) as (a & new & Hrun & Hnew).
  exists a, new. split; [done|]. by eapply Forall_impl.
Qed.

Lemma adds_sendContactListUpdate (code : field) :
  adds is_announcement (sendContactListUpdate code).
Proof.
  unfold sendContactListUpdate. apply adds_gets_bind. intros w.
  destruct (clients_get (clients w) code) as [ws|]; [|apply adds_ret].
  apply adds_gets_bind. intros w'.
  destruct (users_at _ _); [by apply adds_ws_send|apply adds_ret].
Qed.

Lemma adds_notify_contact (code : field) (b : bool) (c : field) :
  adds is_announcement (notify_contact code b c).
Proof.
  unfold notify_contact. apply adds_gets_bind. intros w.
  destruct (clients_get (clients w) c) as [ws|]; [|apply adds_ret].
  apply adds_bind; [by apply adds_ws_send|].
  intros _. apply adds_sendContactListUpdate.
Qed.

Lemma adds_broadcastOnlineStatus (code : field) (b : bool) :
  adds is_announcement (broadcastOnlineStatus code b).
Proof.
  unfold broadcastOnlineStatus. apply adds_gets_bind. intros w.
  destruct (find_username (users (db w)) code) as [n|] eqn:Hfind; simpl;
    [|apply adds_ret].
  destruct (String.eqb n ""); [apply adds_ret|].
  apply find_username_field in Hfind as (u & Hu & _).
  unfold users_at. simpl. rewrite Hu.
  apply adds_forEach. intros c. apply adds_notify_contact.
Qed.

Lemma adds_sendLoginSuccess (ws : conn) (username code : field) :
  adds is_announcement (sendLoginSuccess ws username code).
Proof.
  unfold sendLoginSuccess. apply adds_bind; [by apply adds_ws_send|].
  intros _. apply adds_sendContactListUpdate.
Qed.

Lemma announcement_sent (e : effect) : is_announcement e → is_sent e.
Proof. by destruct e as [|? []]. Qed.

Lemma quiet_sendContactListUpdate (code : field) :
  quiet (sendContactListUpdate code).
Proof.
  eapply adds_weaken; [apply announcement_sent|].
  apply adds_sendContactListUpdate.
Qed.

Lemma quiet_notify_contact (code : field) (b : bool) (c : field) :
  quiet (notify_contact code b c).
Proof.
  eapply adds_weaken; [apply announcement_sent|]. apply adds_notify_contact.
Qed.

Lemma quiet_broadcastOnlineStatus (code : field) (b : bool) :
  quiet (broadcastOnlineStatus code b).
Proof.
  eapply adds_weaken; [apply announcement_sent|].
  apply adds_broadcastOnlineStatus.
Qed.

Lemma quiet_sendLoginSuccess (ws : conn) (username code : field) :
  quiet (sendLoginSuccess ws username code).
Proof.
  eapply adds_weaken; [apply announcement_sent|]. apply adds_sendLoginSuccess.
Qed.

Lemma quiet_handleGetChat (A B : field) (ws : conn) :
  quiet (handleGetChat A B ws).
Proof.
  unfold handleGetChat. apply quiet_gets_bind. intros w.
  apply quiet_gets_bind. intros w'. apply quiet_ws_send.
Qed.

Lemma quiet_handleTyping (typer receiver : field) :
  quiet (handleTyping typer receiver).
Proof.
  unfold handleTyping. apply quiet_gets_bind. intros w.
  destruct (clients_get (clients w) receiver);
    [apply quiet_ws_send|apply quiet_ret].
Qed.

(** ** The registry *)

Lemma clients_get_set_eq (cs : list (field * conn)) (code : field)
    (ws : conn) :
  clients_get (clients_set code ws cs) code = Some ws.
Proof.
  induction cs as [|[k c] cs IH]; simpl.
  - by rewrite field_eqb_refl.
  - destruct (field_eqb k code) eqn:E; simpl; by rewrite E.
Qed.

Lemma clients_get_set_ne (cs : list (field * conn)) (code c : field)
    (ws : conn) :
  c ≠ code → clients_get (clients_set code ws cs) c = clients_get cs c.
Proof.
  intros Hne. induction cs as [|[k c'] cs IH]; simpl.
  - by rewrite (proj2 (field_eqb_neq code c)).
  - destruct (field_eqb k code) eqn:E; simpl.
    + apply field_eqb_eq in E as ->.
      by rewrite (proj2 (field_eqb_neq code c)).
    + by rewrite IH.
Qed.

Lemma clients_set_keys_fresh (cs : list (field * conn)) (code : field)
    (ws : conn) :
  code ∉ cs.*1 → (clients_set code ws cs).*1 = cs.*1 ++ [code].
Proof.
  induction cs as [|[k c] cs IH]; csimpl; [done|].
  intros Hnot. apply not_elem_of_cons in Hnot as [Hk Hnot].
  rewrite (proj2 (field_eqb_neq k code)) by done. csimpl. by rewrite IH.
Qed.

Lemma clients_set_keys_bound (cs : list (field * conn)) (code : field)
    (ws : conn) :
  code ∈ cs.*1 → (clients_set code ws cs).*1 = cs.*1.
Proof.
  induction cs as [|[k c] cs IH]; csimpl; [by intros ?%elem_of_nil|].
  intros Hin. destruct (field_eqb k code) eqn:E; csimpl; [done|].
  apply field_eqb_neq in E. apply elem_of_cons in Hin as [?|Hin]; [done|].
  by rewrite IH.
Qed.

Lemma clients_set_NoDup (cs : list (field * conn)) (code : field)
    (ws : conn) :
  NoDup cs.*1 → NoDup (clients_set code ws cs).*1.
Proof.
  intros Hnd. destruct (decide (code ∈ cs.*1)) as [Hin|Hnot].
  - by rewrite clients_set_keys_bound.
  - rewrite clients_set_keys_fresh by done.
    apply NoDup_app. split_and!; [done| |apply NoDup_singleton].
    intros x Hx ->%list_elem_of_singleton. done.
Qed.

Lemma clients_delete_sublist (cs : list (field * conn)) (code : field) :
  clients_delete code cs `sublist_of` cs.
Proof.
  induction cs as [|[k c] cs IH]; simpl; [done|].
  destruct (field_eqb k code).
  - by apply sublist_cons.
  - by apply sublist_skip.
Qed.

Lemma clients_set_elsewhere (cs : list (field * conn)) (code : field)
    (ws ws' : conn) :
  NoDup cs.*1 → ws ≠ ws' →
  Forall (λ p, p.1 = code ∨ p.2 ≠ ws') cs →
  Forall (λ p, p.2 ≠ ws') (clients_set code ws cs).
Proof.
  intros Hnd Hws Hall.
  induction cs as [|[k c] cs IH]; simpl.
  - by repeat constructor.
  - apply NoDup_cons in Hnd as [Hk Hnd].
    apply Forall_cons in Hall as [Hkc Hall]. simpl in *.
    destruct (field_eqb k code) eqn:E.
    + apply field_eqb_eq in E as ->. constructor; [done|].
      apply Forall_forall. intros [k' c'] Hin.
      rewrite Forall_forall in Hall.
      destruct (Hall _ Hin) as [Heq|?]; simpl in *; [|done]. subst k'.
      exfalso. apply Hk. apply list_elem_of_fmap. by exists (code, c').
    + apply field_eqb_neq in E. constructor; [|by apply IH].
      simpl. by destruct Hkc.
Qed.

(** ** [handleLogin] and [handleReconnect] *)

Lemma broadcast_known (w : world) (code : field) (n : string) (b : bool)
    (u : user) :
  find_username (users (db w)) code = Some n →
  n ≠ "" →
  users_own (users (db w)) n = Some u →
  ∃ new,
    broadcastOnlineStatus code b w = (Done tt, add_trace new w)
    ∧ Forall is_sent new
    ∧ filter is_onlineStatus new
      = omap (status_frame (clients w) code b) (contacts u).
Proof.
  intros Hfind Hn Hu.
  destruct (quiet_forEach (contacts u) (notify_contact code b)
              (quiet_notify_contact code b) w)
    as ([] & new & Hrun & Hnew).
  destruct (forEach_notify_run code b (contacts u) w)
    as (w' & new' & Hrun' & _ & _ & Htr & Hfilter).
  rewrite Hrun in Hrun'. injection Hrun' as <-.
  simpl in Htr. apply app_inv_head in Htr as <-.
  exists new. split_and!; try done.
  unfold broadcastOnlineStatus. erewrite bind_Done by reflexivity.
  simpl. rewrite Hfind. simpl.
  rewrite (proj2 (String.eqb_neq n "")) by done.
  unfold users_at. simpl. by rewrite Hu.
Qed.

(** The two ways out of [handleLogin] and of [handleReconnect]. *)
Lemma handleLogin_guard (w : world) (username pw : field) (ws : conn) :
  let user := users_get (users (db w)) (prop_key username) in
  handleLogin username pw ws w
  = if negb (truthy user) || negb (field_eqb (password_of user) pw)
    then (Done tt, log (Sent ws (EError "Invalid username or password.")) w)
    else (sendLoginSuccess ws username (userCode_of user);;
          broadcastOnlineStatus (userCode_of user) true)
           (bound (userCode_of user) ws w).
Proof.
  intros user. unfold handleLogin. erewrite bind_Done by reflexivity.
  fold user. destruct (negb (truthy user) || _); [done|].
  by erewrite bind_Done by reflexivity.
Qed.

Lemma handleReconnect_guard (w : world) (username code : field) (ws : conn) :
  let user := users_get (users (db w)) (prop_key username) in
  handleReconnect username code ws w
  = if negb (truthy user) || negb (field_eqb (userCode_of user) code)
    then (Done tt,
          log (Sent ws (EError "Reconnect failed. Please log in again.")) w)
    else (sendLoginSuccess ws username code;;
          broadcastOnlineStatus code true) (bound code ws w).
Proof.
  intros user. unfold handleReconnect. erewrite bind_Done by reflexivity.
  fold user. destruct (negb (truthy user) || _); [done|].
  by erewrite bind_Done by reflexivity.
Qed.

Lemma users_get_own (us : list (string * user)) (k : string) (u : user) :
  users_own us k = Some u → users_get us k = OwnUser u.
Proof. intros H. unfold users_get. by rewrite H. Qed.

Lemma announce_quiet (ws : conn) (username code : field) (w : world) :
  ∃ new,
    (sendLoginSuccess ws username code;; broadcastOnlineStatus code true) w
    = (Done tt, add_trace new w)
    ∧ Forall is_sent new.
Proof.
  destruct (quiet_bind (sendLoginSuccess ws username code)
              (λ _, broadcastOnlineStatus code true)
              (quiet_sendLoginSuccess _ _ _)
              (λ _, quiet_broadcastOnlineStatus _ _) w)
    as ([] & new & Hrun & Hnew).
  by exists new.
Qed.

Lemma announce_frames (ws : conn) (username code : field) (w : world) :
  ∃ new,
    (sendLoginSuccess ws username code;; broadcastOnlineStatus code true) w
    = (Done tt, add_trace new w)
    ∧ Forall is_sent new
    ∧ Sent ws (ELoginSuccess username code) ∈ new
    ∧ ∀ to msg, Sent to (EError msg) ∉ new.
Proof.
  destruct (adds_bind is_announcement
              (sendContactListUpdate code)
              (λ _, broadcastOnlineStatus code true)
              (adds_sendContactListUpdate _)
              (λ _, adds_broadcastOnlineStatus _ _)
              (log (Sent ws (ELoginSuccess username code)) w))
    as ([] & new & Hrun & Hnew).
  exists (Sent ws (ELoginSuccess username code) :: new). split_and!.
  - unfold sendLoginSuccess.
    change ((ws_send ws (ELoginSuccess username code);;
             sendContactListUpdate code);;
            broadcastOnlineStatus code true)
      with (λ w0, match (ws_send ws (ELoginSuccess username code);;
                         sendContactListUpdate code) w0 with
                  | (Done a, w') => broadcastOnlineStatus code true w'
                  | (Thrown e, w') => (Thrown e, w')
                  | (OutOfFuel, w') => (OutOfFuel, w')
                  end).
    cbv beta. erewrite (bind_Done (ws_send _ _)) by reflexivity.
    unfold mbind, M_bind in Hrun.
    destruct (sendContactListUpdate code _) as [[[]| |] w1]; try done.
    rewrite Hrun. unfold add_trace, log. simpl. by rewrite <- app_assoc.
  - constructor; [done|]. eapply Forall_impl; [exact Hnew|].
    apply announcement_sent.
  - by left.
  - intros to msg [?|Hin]%elem_of_cons; [done|].
    rewrite Forall_forall in Hnew. by apply Hnew in Hin.
Qed.

Lemma handleLogin_pass (w : world) (username pw : field) (ws : conn) :
  let user := users_get (users (db w)) (prop_key username) in
  truthy user = true → password_of user = pw →
  ∃ new,
    handleLogin username pw ws w
    = (Done tt, add_trace new (bound (userCode_of user) ws w))
    ∧ Forall is_sent new.
Proof.
  intros user Htruthy <-. rewrite handleLogin_guard. fold user.
  rewrite Htruthy, field_eqb_refl. simpl. apply announce_quiet.
Qed.

Lemma handleReconnect_pass (w : world) (username code : field) (ws : conn) :
  let user := users_get (users (db w)) (prop_key username) in
  truthy user = true → userCode_of user = code →
  ∃ new,
    handleReconnect username code ws w
    = (Done tt, add_trace new (bound code ws w))
    ∧ Forall is_sent new.
Proof.
  intros user Htruthy <-. rewrite handleReconnect_guard. fold user.
  rewrite Htruthy, field_eqb_refl. simpl. apply announce_quiet.
Qed.

Lemma handleLogin_fail (w : world) (username pw : field) (ws : conn) :
  let user := users_get (users (db w)) (prop_key username) in
  user = Undefined ∨ password_of user ≠ pw →
  handleLogin username pw ws w
  = (Done tt, log (Sent ws (EError "Invalid username or password.")) w).
Proof.
  intros user H. rewrite handleLogin_guard. fold user.
  destruct H as [->|H]; [done|].
  rewrite (proj2 (field_eqb_neq _ _) H). by rewrite orb_true_r.
Qed.

Lemma handleReconnect_fail (w : world) (username code : field) (ws : conn) :
  let user := users_get (users (db w)) (prop_key username) in
  user = Undefined ∨ userCode_of user ≠ code →
  handleReconnect username code ws w
  = (Done tt,
     log (Sent ws (EError "Reconnect failed. Please log in again.")) w).
Proof.
  intros user H. rewrite handleReconnect_guard. fold user.
  destruct H as [->|H]; [done|].
  rewrite (proj2 (field_eqb_neq _ _) H). by rewrite orb_true_r.
Qed.

Lemma userCode_of_cases (us : list (string * user)) (k : string) :
  userCode_of (users_get us k) = Absent
  ∨ ∃ u, users_own us k = Some u
         ∧ userCode_of (users_get us k) = Str (userCode u).
Proof.
  unfold users_get. destruct (users_own us k) as [u|]; [right; by exists u|].
  left. by destruct (bool_decide _).
Qed.

Lemma handleLogin_outcome (w : world) (username pw : field) (ws : conn) :
  (∃ msg, handleLogin username pw ws w
          = (Done tt, log (Sent ws (EError msg)) w))
  ∨ (∃ code new,
       handleLogin username pw ws w
       = (Done tt, add_trace new (bound code ws w))
       ∧ Forall is_sent new
       ∧ (code = Absent
          ∨ ∃ n u, users_own (users (db w)) n = Some u
                   ∧ code = Str (userCode u))).
Proof.
  rewrite handleLogin_guard. cbv zeta.
  destruct (negb _ || negb _); [left; by eexists|]. right.
  destruct (announce_quiet ws username
              (userCode_of (users_get (users (db w)) (prop_key username)))
              (bound (userCode_of (users_get (users (db w))
                                     (prop_key username))) ws w))
    as (new & Hrun & Hnew).
  eexists _, new. split_and!; [done..|].
  destruct (userCode_of_cases (users (db w)) (prop_key username))
    as [?|(u & ? & ?)]; [by left|right; by eexists _, u].
Qed.

Lemma handleReconnect_outcome (w : world) (username code : field)
    (ws : conn) :
  (∃ msg, handleReconnect username code ws w
          = (Done tt, log (Sent ws (EError msg)) w))
  ∨ (∃ new,
       handleReconnect username code ws w
       = (Done tt, add_trace new (bound code ws w))
       ∧ Forall is_sent new
       ∧ (code = Absent
          ∨ ∃ n u, users_own (users (db w)) n = Some u
                   ∧ code = Str (userCode u))).
Proof.
  rewrite handleReconnect_guard. cbv zeta.
  destruct (negb (truthy _)); [left; by eexists|]. cbn [orb].
  destruct (field_eqb _ code) eqn:Hcode; [|left; by eexists]. right.
  apply field_eqb_eq in Hcode.
  destruct (announce_quiet ws username code (bound code ws w))
    as (new & Hrun & Hnew).
  exists new. split_and!; [done..|]. rewrite <- Hcode.
  destruct (userCode_of_cases (users (db w)) (prop_key username))
    as [?|(u & ? & ?)]; [by left|right; by eexists _, u].
Qed.

Lemma handleLogin_accept (w : world) (username pw : string) (ws : conn)
    (u : user) :
  users_own (users (db w)) username = Some u →
  password u = pw →
  ∃ new,
    handleLogin username pw ws w
    = (Done tt, add_trace new (bound (userCode u) ws w))
    ∧ Forall is_sent new.
Proof.
  intros Hu Hpw.
  pose proof (handleLogin_pass w username pw ws) as H. cbn [prop_key] in H.
  rewrite (users_get_own _ _ _ Hu) in H. by apply H.
Qed.

(** X5. A login with the password of an existing account binds the
    account's code to the socket (the other bindings stay), leaves the
    database alone, and sends, in this order: [loginSuccess] and the
    [contactList] snapshot on that socket, then one [onlineStatus]
    with [isOnline = true] to each contact the registry knows (stated
    for an account that [find] reaches by its code and whose user name is
    not empty). *)
Theorem login_binds_and_announces
    (w : world) (username pw : string) (ws : conn) (u : user) :
  let code := userCode u in
  let cs' := clients_set code ws (clients w) in
  users_own (users (db w)) username = Some u →
  password u = pw →
  find_username (users (db w)) code = Some username →
  username ≠ "" →
  ∃ w' new,
    handleLogin username pw ws w = (Done tt, w')
    ∧ db w' = db w
    ∧ clients w' = cs'
    ∧ clients_get (clients w') code = Some ws
    ∧ (∀ c : field,
         c ≠ code → clients_get (clients w') c = clients_get (clients w) c)
    ∧ trace w'
      = trace w
        ++ [Sent ws (ELoginSuccess username code);
            Sent ws (EContactList
                       (omap (contactDetail_of (db w) cs' code) (contacts u)))]
        ++ new
    ∧ Forall is_sent new
    ∧ filter is_onlineStatus new = omap (status_frame cs' code true) (contacts u).
Proof.
  intros code cs' Hu <- Hfind Hname.
  set (w1 := bound code ws w).
  assert (Hget : clients_get (clients w1) code = Some ws)
    by apply clients_get_set_eq.
  set (w2 := log (Sent ws (ELoginSuccess username code)) w1).
  pose proof (sendContactListUpdate_run w2 code ws u Hget) as Hsnap.
  unfold users_at in Hsnap. simpl in Hsnap. rewrite Hfind in Hsnap.
  specialize (Hsnap Hu).
  set (w3 := log (Sent ws (EContactList
                 (omap (contactDetail_of (db w) cs' code) (contacts u)))) w2).
  destruct (broadcast_known w3 code username true u Hfind Hname Hu)
    as (new & Hrun & Hnew & Hfilter).
  exists (add_trace new w3), new. split_and!; try done.
  - rewrite handleLogin_guard. cbn [prop_key].
    rewrite (users_get_own _ _ _ Hu). cbn [truthy password_of userCode_of].
    rewrite field_eqb_refl. cbn [negb orb]. fold code w1.
    erewrite bind_Done; [exact Hrun|].
    unfold sendLoginSuccess. erewrite bind_Done by reflexivity.
    exact Hsnap.
  - intros c Hc. by apply clients_get_set_ne.
  - simpl. by rewrite <- !app_assoc.
Qed.

Lemma login_binds_and_announces_witness :
  ∃ w',
    handleLogin "alice" "pw1" 9 Scenario.chatting = (Done tt, w')
    ∧ clients w' = [(Str "XYZ789", 7); (Str "ABC123", 9)]
    ∧ trace w'
      = [Sent 9 (ELoginSuccess "alice" "ABC123");
         Sent 9 (EContactList [ContactDetail (Some "bob") "XYZ789" true 0]);
         Sent 7 (EOnlineStatus "ABC123" true);
         Sent 7 (EContactList [ContactDetail (Some "alice") "ABC123" true 1])].
Proof.
  destruct (login_binds_and_announces Scenario.chatting "alice" "pw1" 9
              Scenario.alice)
    as (w' & new & Hrun & _ & Hcl & _); [done..|].
  exists w'. split; [exact Hrun|].
  vm_compute in Hrun. by injection Hrun as <-.
Defined.

(** X6. A login whose payload may lack either field is rejected exactly
    when the guard says so: when [db.users[username]] is [undefined], or
    when the [password] property of what is found there (the stored
    password of an account; [undefined] for a member of
    [Object.prototype]) is not the payload's password.  It is then
    answered with one [error] frame and changes nothing: no binding, no
    broadcast.  In every other case no [error] frame is sent and the
    socket is bound. *)
Theorem login_rejected (w : world) (username pw : field) (ws : conn) :
  let user := users_get (users (db w)) (prop_key username) in
  (user = Undefined ∨ password_of user ≠ pw →
   ∃ msg,
     handleLogin username pw ws w = (Done tt, log (Sent ws (EError msg)) w)
     ∧ clients (log (Sent ws (EError msg)) w) = clients w
     ∧ db (log (Sent ws (EError msg)) w) = db w)
  ∧ (¬ (user = Undefined ∨ password_of user ≠ pw) →
     ∃ new,
       handleLogin username pw ws w
       = (Done tt, add_trace new (bound (userCode_of user) ws w))
       ∧ Forall is_sent new
       ∧ Sent ws (ELoginSuccess username (userCode_of user)) ∈ new
       ∧ ∀ to msg, Sent to (EError msg) ∉ new).
Proof.
  intros user. split.
  - intros H. eexists. split_and!; [by apply handleLogin_fail|done..].
  - intros H.
    assert (Htruthy : truthy user = true).
    { destruct user; try done. exfalso. apply H. by left. }
    assert (Hpw : password_of user = pw).
    { destruct (decide (password_of user = pw)); [done|].
      exfalso. apply H. by right. }
    rewrite handleLogin_guard. fold user.
    rewrite Htruthy, Hpw, field_eqb_refl. cbn [negb orb].
    apply announce_frames.
Qed.

Lemma login_rejected_witness :
  (∃ msg, handleLogin "alice" "guess" 9 Scenario.chatting
          = (Done tt, log (Sent 9 (EError msg)) Scenario.chatting))
  ∧ (∃ msg, handleLogin "toString" "" 9 Scenario.chatting
            = (Done tt, log (Sent 9 (EError msg)) Scenario.chatting))
  ∧ (∃ msg, handleLogin "alice" Absent 9 Scenario.chatting
            = (Done tt, log (Sent 9 (EError msg)) Scenario.chatting))
  ∧ (∃ msg, handleLogin Absent Absent 9 Scenario.chatting
            = (Done tt, log (Sent 9 (EError msg)) Scenario.chatting)).
Proof.
  split_and!.
  - destruct (proj1 (login_rejected Scenario.chatting "alice" "guess" 9))
      as (msg & Hrun & _); [|by exists msg].
    right. simpl. discriminate.
  - destruct (proj1 (login_rejected Scenario.chatting "toString" "" 9))
      as (msg & Hrun & _); [|by exists msg].
    right. simpl. discriminate.
  - destruct (proj1 (login_rejected Scenario.chatting "alice" Absent 9))
      as (msg & Hrun & _); [|by exists msg].
    right. simpl. discriminate.
  - destruct (proj1 (login_rejected Scenario.chatting Absent Absent 9))
      as (msg & Hrun & _); [|by exists msg].
    left. reflexivity.
Defined.

Lemma reconnect_is_login_without_password_aux
    (w : world) (username : string) (ws : conn) (u : user) :
  users_own (users (db w)) username = Some u →
  handleReconnect username (userCode u) ws w
  = handleLogin username (password u) ws w.
Proof.
  intros Hu. rewrite handleReconnect_guard, handleLogin_guard.
  cbn [prop_key]. rewrite (users_get_own _ _ _ Hu).
  cbn [truthy password_of userCode_of]. by rewrite !field_eqb_refl.
Qed.

(** X7. A reconnect that names an account and its code has exactly the
    effect of a login with that account's password: the stored code is
    all that is checked, the password is never asked for. *)
Theorem reconnect_is_login_without_password
    (w : world) (username : string) (ws : conn) (u : user) :
  users_own (users (db w)) username = Some u →
  handleReconnect username (userCode u) ws w
  = handleLogin username (password u) ws w.
Proof. apply reconnect_is_login_without_password_aux. Qed.

Lemma reconnect_is_login_without_password_witness :
  handleReconnect "alice" "ABC123" 9 Scenario.chatting
  = handleLogin "alice" "pw1" 9 Scenario.chatting.
Proof.
  apply (reconnect_is_login_without_password Scenario.chatting "alice" 9
           Scenario.alice).
  reflexivity.
Defined.

(** X8. A reconnect whose payload may lack either field is rejected
    exactly when the guard says so: when [db.users[username]] is
    [undefined], or when the [userCode] property of what is found there
    (the code of an account; [undefined] for a member of
    [Object.prototype]) is not the payload's code.  It is then answered
    with one [error] frame and changes nothing.  In every other case no
    [error] frame is sent and the socket is bound under the payload's
    code. *)
Theorem reconnect_rejected (w : world) (username code : field) (ws : conn) :
  let user := users_get (users (db w)) (prop_key username) in
  (user = Undefined ∨ userCode_of user ≠ code →
   handleReconnect username code ws w
   = (Done tt,
      log (Sent ws (EError "Reconnect failed. Please log in again.")) w)
   ∧ db (log (Sent ws (EError "Reconnect failed. Please log in again.")) w)
     = db w
   ∧ clients
       (log (Sent ws (EError "Reconnect failed. Please log in again.")) w)
     = clients w)
  ∧ (¬ (user = Undefined ∨ userCode_of user ≠ code) →
     ∃ new,
       handleReconnect username code ws w
       = (Done tt, add_trace new (bound code ws w))
       ∧ Forall is_sent new
       ∧ Sent ws (ELoginSuccess username code) ∈ new
       ∧ ∀ to msg, Sent to (EError msg) ∉ new).
Proof.
  intros user. split.
  - intros H. split_and!; [by apply handleReconnect_fail|done..].
  - intros H.
    assert (Htruthy : truthy user = true).
    { destruct user; try done. exfalso. apply H. by left. }
    assert (Hcode : userCode_of user = code).
    { destruct (decide (userCode_of user = code)); [done|].
      exfalso. apply H. by right. }
    rewrite handleReconnect_guard. fold user.
    rewrite Htruthy, Hcode, field_eqb_refl. cbn [negb orb].
    apply announce_frames.
Qed.

Lemma reconnect_rejected_witness :
  handleReconnect "alice" "XYZ789" 9 Scenario.chatting
  = (Done tt,
     log (Sent 9 (EError "Reconnect failed. Please log in again."))
       Scenario.chatting)
  ∧ handleReconnect "alice" Absent 9 Scenario.chatting
    = (Done tt,
       log (Sent 9 (EError "Reconnect failed. Please log in again."))
         Scenario.chatting)
  ∧ handleReconnect "toString" "ABC123" 9 Scenario.chatting
    = (Done tt,
       log (Sent 9 (EError "Reconnect failed. Please log in again."))
         Scenario.chatting).
Proof.
  split_and!.
  - eapply proj1,
      (proj1 (reconnect_rejected Scenario.chatting "alice" "XYZ789" 9)).
    right. simpl. discriminate.
  - eapply proj1,
      (proj1 (reconnect_rejected Scenario.chatting "alice" Absent 9)).
    right. simpl. discriminate.
  - eapply proj1,
      (proj1 (reconnect_rejected Scenario.chatting "toString" "ABC123" 9)).
    right. simpl. discriminate.
Defined.

(** X28. A user name that only [Object.prototype] knows (["toString"],
    ["constructor"], ["__proto__"], ...) gets in without any credential:
    a login frame with that user name and no [password] field, and a
    reconnect frame with that user name and no [userCode] field, pass the
    guard, bind the socket in the registry under the key [undefined] and
    are answered with [loginSuccess] (carrying no code); the database is
    left alone. *)
Theorem prototype_name_binds_undefined
    (w : world) (username : string) (ws : conn) :
  users_own (users (db w)) username = None →
  username ∈ JS.object_prototype_keys →
  ∃ new new',
    handleLogin username Absent ws w
    = (Done tt, add_trace new (bound Absent ws w))
    ∧ Sent ws (ELoginSuccess username Absent) ∈ new
    ∧ handleReconnect username Absent ws w
      = (Done tt, add_trace new' (bound Absent ws w))
    ∧ Sent ws (ELoginSuccess username Absent) ∈ new'
    ∧ clients_get (clients (add_trace new (bound Absent ws w))) Absent
      = Some ws
    ∧ db (add_trace new (bound Absent ws w)) = db w
    ∧ (∀ to msg, Sent to (EError msg) ∉ new ++ new').
Proof.
  intros Hnone Hproto.
  assert (Hget : users_get (users (db w)) username = Inherited).
  { unfold users_get. by rewrite Hnone, bool_decide_eq_true_2. }
  destruct (announce_frames ws username Absent (bound Absent ws w))
    as (new & Hrun & _ & Hin & Herr).
  exists new, new. split_and!; try done.
  - rewrite handleLogin_guard. cbn [prop_key]. by rewrite Hget.
  - rewrite handleReconnect_guard. cbn [prop_key]. by rewrite Hget.
  - simpl. apply clients_get_set_eq.
  - intros to msg [?|?]%elem_of_app; by eapply Herr.
Qed.

Lemma prototype_name_binds_undefined_witness :
  ∃ w',
    handleLogin "toString" Absent 9 Scenario.chatting = (Done tt, w')
    ∧ clients w' = [(Str "XYZ789", 7); (Absent, 9)]
    ∧ trace w' = [Sent 9 (ELoginSuccess "toString" Absent)].
Proof.
  destruct (prototype_name_binds_undefined Scenario.chatting "toString" 9)
    as (new & new' & Hrun & _); [reflexivity|by vm_compute; set_solver|].
  eexists. split; [exact Hrun|].
  vm_compute in Hrun. by injection Hrun as <-.
Defined.

(** X9. The last login wins, and a late close of the socket it replaced
    does no harm: when an account whose code is bound to socket [ws1]
    (which serves no other code) logs in on another socket [ws2], the
    code is bound to [ws2]; the close of [ws1] that follows removes
    nothing and sends nothing. *)
Theorem relogin_survives_stale_close
    (w : world) (username pw : string) (ws1 ws2 : conn) (u : user) :
  users_own (users (db w)) username = Some u →
  password u = pw →
  ws2 ≠ ws1 →
  NoDup (clients w).*1 →
  clients_get (clients w) (userCode u) = Some ws1 →
  Forall (λ p, p.1 = Str (userCode u) ∨ p.2 ≠ ws1) (clients w) →
  ∃ w1,
    handleLogin username pw ws2 w = (Done tt, w1)
    ∧ clients_get (clients w1) (userCode u) = Some ws2
    ∧ on_close ws1 w1 = (Done tt, w1).
Proof.
  intros Hu Hpw Hws Hnd _ Hall.
  destruct (handleLogin_accept w username pw ws2 u Hu Hpw)
    as (new & Hrun & _).
  eexists. split_and!; [exact Hrun|apply clients_get_set_eq|].
  unfold on_close. erewrite bind_Done by reflexivity.
  apply close_scan_stale. simpl. by apply clients_set_elsewhere.
Qed.

Lemma relogin_survives_stale_close_witness :
  ∃ w1,
    handleLogin "bob" "pw2" 8 Scenario.chatting = (Done tt, w1)
    ∧ clients_get (clients w1) "XYZ789" = Some 8
    ∧ on_close 7 w1 = (Done tt, w1).
Proof.
  apply (relogin_survives_stale_close Scenario.chatting "bob" "pw2" 7 8
           Scenario.bob); try done.
  - cbn. apply NoDup_singleton.
  - cbn. constructor; [by left|constructor].
Defined.

(** ** Events that write nothing *)

Lemma on_message_Done (fuel : nat) (d : data) (ws : conn) (w w' : world) :
  handleMessage fuel d ws w = (Done tt, w') →
  on_message fuel d ws w = (Done tt, w').
Proof. intros H. unfold on_message. by rewrite H. Qed.

Lemma quiet_only_sends (m : M unit) (w0 w : world) :
  db w = db w0 → (∃ pre, trace w = trace w0 ++ pre ∧ Forall is_sent pre) →
  quiet m →
  ∃ w' new,
    m w = (Done tt, w') ∧ db w' = db w0
    ∧ trace w' = trace w0 ++ new ∧ Forall is_sent new.
Proof.
  intros Hdb (pre & Htr & Hpre) Hm.
  destruct (Hm w) as ([] & new & Hrun & Hnew).
  exists (add_trace new w), (pre ++ new). split_and!; try done.
  - simpl. by rewrite Htr, app_assoc.
  - by apply Forall_app.
Qed.

Lemma close_scan_only_sends (entries : list (field * conn)) (ws : conn)
    (w : world) :
  only_sends (close_scan entries ws) w.
Proof.
  induction entries as [|[code c] entries IH]; simpl.
  - exists w, []. split_and!; try done. by rewrite app_nil_r.
  - destruct (Nat.eqb c ws); [|done].
    unfold only_sends. erewrite bind_Done by reflexivity.
    apply quiet_only_sends; [done| |apply quiet_broadcastOnlineStatus].
    exists []. split; [by rewrite app_nil_r|done].
Qed.

(** X10. Logging in, reconnecting, fetching a history, a typing notice
    and the close of a socket never change the database and never write
    the store, whatever their arguments and whether they succeed or not:
    they run to their end and only send frames. *)
Theorem presence_and_reads_never_write (fuel : nat) (ws : conn) (w : world) :
  (∀ username pw, only_sends (on_message fuel (Login username pw) ws) w)
  ∧ (∀ username code,
       only_sends (on_message fuel (Reconnect username code) ws) w)
  ∧ (∀ A B, only_sends (on_message fuel (GetChat A B) ws) w)
  ∧ (∀ typer receiver,
       only_sends (on_message fuel (Typing typer receiver) ws) w)
  ∧ only_sends (on_close ws) w.
Proof.
  assert (Hquiet : ∀ r : request, quiet (serve fuel r ws) →
                                   only_sends (on_message fuel r ws) w).
  { intros r Hq. destruct (Hq w) as ([] & new & Hrun & Hnew).
    exists (add_trace new w), new.
    split_and!; [by rewrite on_message_request, Hrun|done..]. }
  assert (Hout : ∀ r : request,
            ((∃ msg, serve fuel r ws w
                     = (Done tt, log (Sent ws (EError msg)) w))
             ∨ (∃ code new,
                  serve fuel r ws w
                  = (Done tt, add_trace new (bound code ws w))
                  ∧ Forall is_sent new)) →
            only_sends (on_message fuel r ws) w).
  { intros r [(msg & Hrun)|(code & new & Hrun & Hnew)].
    - exists (log (Sent ws (EError msg)) w), [Sent ws (EError msg)].
      split_and!; [by rewrite on_message_request, Hrun|done|done|].
      by repeat constructor.
    - exists (add_trace new (bound code ws w)), new.
      split_and!; [by rewrite on_message_request, Hrun|done..]. }
  split_and!.
  - intros username pw. apply Hout. simpl.
    destruct (handleLogin_outcome w username pw ws)
      as [?|(code & new & ? & ? & _)]; [by left|right; by eexists _, _].
  - intros username code. apply Hout. simpl.
    destruct (handleReconnect_outcome w username code ws)
      as [?|(new & ? & ? & _)]; [by left|right; by eexists _, _].
  - intros A B. apply Hquiet. simpl. apply quiet_handleGetChat.
  - intros typer receiver. apply Hquiet. simpl. apply quiet_handleTyping.
  - unfold on_close.
    destruct (close_scan_only_sends (clients w) ws w)
      as (w' & new & Hrun & Hrest).
    exists w', new. split; [|done]. by erewrite bind_Done by reflexivity.
Qed.

(** ** Runs of the properties of sign-up and close on concrete worlds *)

Lemma on_close_stale_witness :
  on_close 5 Scenario.chatting = (Done tt, Scenario.chatting).
Proof.
  apply (on_close_stale 5 Scenario.chatting).
  cbn. constructor; [done|constructor].
Defined.

Lemma on_close_unbinds_and_broadcasts_witness :
  ∃ w',
    on_close 3 Scenario.both_online = (Done tt, w')
    ∧ clients w' = [(Str "XYZ789", 7)]
    ∧ trace w'
      = [Sent 7 (EOnlineStatus "ABC123" false);
         Sent 7 (EContactList [ContactDetail (Some "alice") "ABC123" false 0])].
Proof.
  destruct (on_close_unbinds_and_broadcasts Scenario.both_online 3
              [] [(Str "XYZ789", 7)] "ABC123" "alice" Scenario.alice)
    as (w' & new & Hrun & _); [done..|].
  exists w'. split; [exact Hrun|].
  vm_compute in Hrun. by injection Hrun as <-.
Defined.

Lemma signup_duplicate_witness :
  handleSignup 1 "alice" "other" 9 Scenario.chatting
  = (Done tt,
     log (Sent 9 (EError "Username already exists.")) Scenario.chatting).
Proof.
  apply (signup_duplicate 1 Scenario.chatting "alice" "other" 9
           Scenario.alice).
  reflexivity.
Defined.

Lemma signup_allocates_witness :
  ∃ w',
    handleSignup 2 "carol" "pw3" 9 Scenario.chatting = (Done tt, w')
    ∧ users_own (users (db w')) "carol" = Some (User "pw3" "ZZZZZZ" [])
    ∧ trace w' = [Saved (db w'); Sent 9 (ESignupSuccess "ZZZZZZ")].
Proof.
  destruct (signup_allocates 2 Scenario.chatting "carol" "pw3" 9 1)
    as (w' & Hrun & _ & Hown & _ & _ & _ & Htr & _).
  - reflexivity.
  - lia.
  - intros j Hj. assert (j = 0) as -> by lia. vm_compute.
    set_solver.
  - vm_compute. set_solver.
  - exists w'. by split_and!.
Defined.

Lemma code_of_fraction_witness :
  all_chars code_char (code_of_draw "0.abc123xyz") = true
  ∧ String.length (code_of_draw "0.abc123xyz") = 6.
Proof.
  apply (code_of_fraction "abc123xyz"). reflexivity.
Defined.

(** ** Exceptions and odd user names *)

Lemma push_contact_at (w : world) (name : option string) (code : field)
    (u : user) :
  users_own (users (db w)) (key_of name) = Some u →
  ∃ w' u',
    push_contact name code w = (Done tt, w')
    ∧ users_own (users (db w')) (key_of name) = Some u'
    ∧ code ∈ contacts u'
    ∧ (∀ n', n' ≠ key_of name →
         users_own (users (db w')) n' = users_own (users (db w)) n')
    ∧ (∀ c, find_username (users (db w')) c = find_username (users (db w)) c)
    ∧ clients w' = clients w
    ∧ trace w' = trace w.
Proof.
  intros Hu. unfold push_contact, users_at. run. simpl. rewrite Hu.
  destruct (bool_decide (code ∈ contacts u)) eqn:Hin.
  - apply bool_decide_eq_true in Hin. exists w, u. by split_and!.
  - run. unfold users_set. rewrite Hu.
    eexists _, _. split_and!; [reflexivity|simpl..].
    + by eapply users_own_replace_eq.
    + simpl. apply elem_of_app. right. by left.
    + intros n' Hne. by apply users_own_replace_ne.
    + intros c. by eapply find_username_replace.
    + done.
    + done.
Qed.

Lemma push_contact_throws (w : world) (name : option string) (code : field) :
  users_own (users (db w)) (key_of name) = None →
  push_contact name code w = (Thrown "TypeError", w).
Proof.
  intros Hu. unfold push_contact, users_at. run. simpl. by rewrite Hu.
Qed.

Lemma bind_Thrown {A B} (m : M A) (k : A → M B) (w w' : world) (e : string) :
  m w = (Thrown e, w') → (m ≫= k) w = (Thrown e, w').
Proof. intros H. unfold mbind, M_bind. by rewrite H. Qed.

Lemma handleAddContact_outcome (w : world) (A T : field) (ws : conn) :
  (∃ w', handleAddContact A T ws w = (Done tt, w'))
  ∨ (handleAddContact A T ws w = (Thrown "TypeError", w)
     ∧ find_username (users (db w)) A = None
     ∧ users_own (users (db w)) "undefined" = None
     ∧ ∃ ut, find_username (users (db w)) T = Some ut ∧ ut ≠ "" ∧ A ≠ T).
Proof.
  unfold handleAddContact. erewrite bind_Done by reflexivity.
  destruct (falsy_name (find_username (users (db w)) T)) eqn:Hfalsy;
    [left; by eexists|].
  destruct (field_eqb A T) eqn:Hself; [left; by eexists|].
  apply field_eqb_neq in Hself.
  destruct (find_username (users (db w)) T) as [ut|] eqn:HT; [|done].
  simpl in Hfalsy. apply String.eqb_neq in Hfalsy.
  destruct (find_username_field _ _ _ HT) as (t0 & Ht0 & _).
  destruct (users_own (users (db w)) (key_of (find_username (users (db w)) A)))
    as [a0|] eqn:Ha0.
  - left.
    destruct (push_contact_at w _ T a0 Ha0)
      as (w1 & a1 & Hrun1 & Ha1 & _ & Hoth1 & _).
    assert (∃ t1, users_own (users (db w1)) (key_of (Some ut)) = Some t1)
      as [t1 Ht1].
    { simpl. destruct (decide (ut = key_of (find_username (users (db w)) A)))
        as [->|Hne]; [by eexists|]. rewrite Hoth1 by done. by eexists. }
    destruct (push_contact_at w1 (Some ut) A t1 Ht1) as (w2 & t2 & Hrun2 & _).
    destruct (addContact_notify A T w2) as (w3 & new & Hrun3 & _).
    exists w3.
    erewrite bind_Done by exact Hrun1.
    erewrite bind_Done by exact Hrun2. exact Hrun3.
  - right.
    destruct (find_username (users (db w)) A) as [ua|] eqn:HA.
    + apply find_username_field in HA as (a0 & Ha0' & _). simpl in Ha0.
      congruence.
    + split_and!; [|done|done|by exists ut].
      by erewrite bind_Thrown by (by apply push_contact_throws).
Qed.

Lemma generateUserCode_loop_outcome (existing : gset string) (fuel : nat) :
  ∀ w : world,
    ∃ w',
      db w' = db w ∧ clients w' = clients w ∧ trace w' = trace w
      ∧ (generateUserCode_loop fuel existing w = (OutOfFuel, w')
         ∨ ∃ code, generateUserCode_loop fuel existing w = (Done code, w')
                   ∧ (code ∉ existing)
                   ∧ String.length code ≤ 6).
Proof.
  induction fuel as [|fuel IH]; intros w; simpl.
  - exists w. split_and!; try done. by left.
  - run. fold (code_of_draw (random_seq (env w) (n_random w))).
    destruct (bool_decide _) eqn:Hin.
    + destruct (IH (tick_random w)) as (w' & ? & ? & ? & H).
      exists w'. by split_and!.
    + apply bool_decide_eq_false in Hin.
      exists (tick_random w). split_and!; try done. right.
      eexists. split_and!; [done..|apply length_code_of_draw].
Qed.

Lemma handleSignup_outcome (fuel : nat) (w : world) (username pw : field)
    (ws : conn) :
  ∃ r w', handleSignup fuel username pw ws w = (r, w')
          ∧ (r = Done tt ∨ r = OutOfFuel)
          ∧ clients w' = clients w
          ∧ chats (db w') = chats (db w)
          ∧ (users (db w') = users (db w)
             ∨ ∃ code,
                 users_own (users (db w)) (prop_key username) = None
                 ∧ (code ∉ existing_codes (users (db w)))
                 ∧ users (db w')
                   = users_add (prop_key username) (User pw code [])
                       (users (db w))).
Proof.
  unfold handleSignup. erewrite bind_Done by reflexivity.
  destruct (truthy (users_get (users (db w)) (prop_key username)))
    eqn:Htruthy.
  - eexists _, _. split_and!; [done|by left|done|done|by left].
  - assert (Hnone : users_own (users (db w)) (prop_key username) = None).
    { unfold users_get in Htruthy.
      by destruct (users_own (users (db w)) (prop_key username)). }
    destruct (generateUserCode_loop_outcome
                (existing_codes (users (db w))) fuel w)
      as (w1 & Hdb & Hcl & Htr & [Hout|(code & Hrun & Hcode & _)]).
    + exists OutOfFuel, w1. split_and!; try done.
      * unfold generateUserCode. unfold mbind at 1, M_bind at 1.
        erewrite bind_Done by reflexivity. by rewrite Hout.
      * by right.
      * by rewrite Hdb.
      * left. by rewrite Hdb.
    + eexists (Done tt), _. split_and!.
      * erewrite bind_Done.
        2:{ unfold generateUserCode. erewrite bind_Done by reflexivity.
            exact Hrun. }
        run. reflexivity.
      * by left.
      * done.
      * simpl. by rewrite Hdb.
      * right. exists code. simpl. unfold users_set. by rewrite Hnone.
Qed.

Lemma serve_throws (fuel : nat) (r : request) (ws : conn) (w w' : world)
    (e : string) :
  serve fuel r ws w = (Thrown e, w') →
  ∃ A T ut,
    r = AddContact A T
    ∧ find_username (users (db w)) A = None
    ∧ users_own (users (db w)) "undefined" = None
    ∧ find_username (users (db w)) T = Some ut ∧ ut ≠ "" ∧ A ≠ T
    ∧ w' = w.
Proof.
  destruct r as [username pw|username pw|A T|A B|A B t|typer receiver
                 |R M S|username code]; simpl; intros Hrun.
  - destruct (handleSignup_outcome fuel w username pw ws)
      as (r & w1 & Hrun' & [->| ->] & _); congruence.
  - destruct (handleLogin_outcome w username pw ws)
      as [(msg & Hrun')|(code & new & Hrun' & _)]; congruence.
  - destruct (handleAddContact_outcome w A T ws)
      as [[w1 Hrun']|(Hrun' & HA & Hundef & ut & HT & Hut & Hne)].
    + congruence.
    + rewrite Hrun' in Hrun. injection Hrun as _ <-.
      exists A, T, ut. by split_and!.
  - destruct (quiet_handleGetChat A B ws w) as ([] & new & Hrun' & _).
    congruence.
  - destruct (handleSendMessage_run w A B t ws) as (w1 & Hrun' & _).
    congruence.
  - destruct (quiet_handleTyping typer receiver w) as ([] & new & Hrun' & _).
    congruence.
  - destruct M as [|M].
    + rewrite handleReadMessage_no_id in Hrun. congruence.
    + destruct (handleReadMessage_effect w R M S) as (w1 & Hrun' & _).
      congruence.
  - destruct (handleReconnect_outcome w username code ws)
      as [(msg & Hrun')|(new & Hrun' & _)]; congruence.
Qed.

(** X16. Among the frames whose fields, where present, are strings, the
    ones on which [handleMessage] throws are: a frame for one of the
    eight handlers that has no payload; a frame whose type names one of
    the ten members of [Object.prototype] that throw when called; and an
    addContact that would be accepted (target found under a non-empty
    user name, other than the adder's code) whose adder code belongs to
    no account, when no account is called ["undefined"].  In each case it
    throws before anything was changed. *)
Theorem exceptions_of_handleMessage
    (fuel : nat) (d : data) (ws : conn) (w w' : world) (e : string) :
  handleMessage fuel d ws w = (Thrown e, w') →
  w' = w
  ∧ (malformed fuel d = true
     ∨ ∃ A T ut,
         request_of d = Some (AddContact A T)
         ∧ find_username (users (db w)) A = None
         ∧ users_own (users (db w)) "undefined" = None
         ∧ find_username (users (db w)) T = Some ut ∧ ut ≠ "" ∧ A ≠ T).
Proof.
  intros Hrun. pose proof (handleMessage_cases fuel d ws) as Hcases.
  destruct (request_of d) as [r|].
  - destruct Hcases as [Heq _]. rewrite Heq in Hrun.
    apply serve_throws in Hrun
      as (A & T & ut & -> & HA & Hundef & HT & Hut & Hne & ->).
    split; [done|]. right. by exists A, T, ut.
  - destruct Hcases as [[Heq Hmal]|[Heq _]]; rewrite Heq in Hrun.
    + injection Hrun as _ <-. by split; [|left].
    + discriminate.
Qed.

Lemma exceptions_of_handleMessage_witness :
  Scenario.strangers = Scenario.strangers
  ∧ (malformed 0 (AddContact "NOBODY" "XYZ789") = true
     ∨ ∃ A T ut,
         request_of (AddContact "NOBODY" "XYZ789") = Some (AddContact A T)
         ∧ find_username (users (db Scenario.strangers)) A = None
         ∧ users_own (users (db Scenario.strangers)) "undefined" = None
         ∧ find_username (users (db Scenario.strangers)) T = Some ut
         ∧ ut ≠ "" ∧ A ≠ T).
Proof.
  apply (exceptions_of_handleMessage 0 (AddContact "NOBODY" "XYZ789") 3
           Scenario.strangers Scenario.strangers "TypeError").
  reflexivity.
Defined.



(** X17. An addContact from a code of no account to the code of an
    account, when no account is called ["undefined"]: the handler throws
    at its first access to the adder's account, nothing has changed, and
    the caller gets the [error] frame of a malformed message. *)
Theorem addContact_unknown_adder
    (fuel : nat) (w : world) (A T ut : string) (ws : conn) :
  find_username (users (db w)) A = None →
  users_own (users (db w)) "undefined" = None →
  find_username (users (db w)) T = Some ut →
  ut ≠ "" →
  handleAddContact A T ws w = (Thrown "TypeError", w)
  ∧ on_message fuel (AddContact A T) ws w
    = (Done tt, log (Sent ws (EError "Invalid message format.")) w).
Proof.
  intros HA Hundef HT Hut.
  assert (Hrun : handleAddContact A T ws w = (Thrown "TypeError", w)).
  { destruct (handleAddContact_outcome w A T ws)
      as [[w1 Hrun]|(Hrun & _)]; [|done].
    exfalso. unfold handleAddContact in Hrun.
    erewrite bind_Done in Hrun by reflexivity.
    rewrite HA, HT in Hrun. simpl in Hrun.
    rewrite (proj2 (String.eqb_neq ut "")) in Hrun by done.
    assert (A ≠ T) as Hne by (intros ->; congruence).
    rewrite (proj2 (String.eqb_neq A T)) in Hrun by done.
    erewrite bind_Thrown in Hrun by (by apply push_contact_throws).
    done. }
  split; [done|]. rewrite on_message_request. simpl. by rewrite Hrun.
Qed.

Lemma addContact_unknown_adder_witness :
  handleAddContact "NOBODY" "XYZ789" 3 Scenario.strangers
  = (Thrown "TypeError", Scenario.strangers)
  ∧ on_message 0 (AddContact "NOBODY" "XYZ789") 3 Scenario.strangers
    = (Done tt,
       log (Sent 3 (EError "Invalid message format.")) Scenario.strangers).
Proof.
  by apply (addContact_unknown_adder 0 Scenario.strangers
              "NOBODY" "XYZ789" "bob" 3).
Defined.

(** X18. When an account is called ["undefined"], an addContact from a
    code of no account is accepted: [db.users[undefined]] reads that
    account.  The target's code is added to the contacts of the account
    called ["undefined"], and the adder code, which is no account's, to
    the contacts of the target. *)
Theorem addContact_reaches_undefined_account
    (w : world) (A T ut : string) (ws : conn) (u0 : user) :
  find_username (users (db w)) A = None →
  users_own (users (db w)) "undefined" = Some u0 →
  find_username (users (db w)) T = Some ut →
  ut ≠ "" →
  ut ≠ "undefined" →
  ∃ w1 u1 t1,
    handleAddContact A T ws w = (Done tt, w1)
    ∧ users_own (users (db w1)) "undefined" = Some u1
    ∧ Str T ∈ contacts u1
    ∧ users_own (users (db w1)) ut = Some t1
    ∧ Str A ∈ contacts t1
    ∧ find_username (users (db w1)) A = None.
Proof.
  intros HA Hu0 HT Hut Hne.
  destruct (find_username_Some _ _ _ HT) as (t0 & Ht0 & _).
  assert (A ≠ T) as HAT by (intros ->; congruence).
  unfold handleAddContact. erewrite bind_Done by reflexivity.
  rewrite HA, HT. simpl.
  rewrite (proj2 (String.eqb_neq ut "")), (proj2 (String.eqb_neq A T)) by done.
  destruct (push_contact_at w None T u0 Hu0)
    as (w1 & u1 & Hrun1 & Hu1 & HinT & Hoth1 & Hfind1 & _).
  assert (Ht1 : users_own (users (db w1)) (key_of (Some ut)) = Some t0).
  { simpl. by rewrite Hoth1. }
  destruct (push_contact_at w1 (Some ut) A t0 Ht1)
    as (w2 & t2 & Hrun2 & Ht2 & HinA & Hoth2 & Hfind2 & _).
  destruct (addContact_notify A T w2) as (w3 & new & Hrun3 & Hdb3 & _).
  exists w3, u1, t2.
  erewrite bind_Done by exact Hrun1.
  erewrite bind_Done by exact Hrun2.
  rewrite Hdb3. split_and!; try done.
  - rewrite Hoth2; [done|]. simpl. congruence.
  - by rewrite Hfind2, Hfind1.
Qed.

Lemma addContact_reaches_undefined_account_witness :
  ∃ w1,
    handleAddContact "NOBODY" "XYZ789" 3 Scenario.with_undefined
    = (Done tt, w1)
    ∧ users (db w1)
      = [("undefined", User "pw0" "UNDEF1" [Str "XYZ789"]);
         ("bob", User "pw2" "XYZ789" [Str "NOBODY"])].
Proof.
  destruct (addContact_reaches_undefined_account Scenario.with_undefined
              "NOBODY" "XYZ789" "bob" 3 (User "pw0" "UNDEF1" []))
    as (w1 & u1 & t1 & Hrun & _); [done..|].
  exists w1. split; [exact Hrun|].
  vm_compute in Hrun. by injection Hrun as <-.
Defined.

(** X19. An account whose user name is the empty string cannot be added
    as a contact: [find] returns the empty name, which the handler takes
    for [undefined], and the caller is told that no user has that code. *)
Theorem empty_username_cannot_be_added
    (w : world) (A T : string) (ws : conn) :
  find_username (users (db w)) T = Some "" →
  handleAddContact A T ws w
  = (Done tt,
     log (Sent ws (EError "User with that code does not exist.")) w).
Proof.
  intros HT. unfold handleAddContact. erewrite bind_Done by reflexivity.
  by rewrite HT.
Qed.

Lemma empty_username_cannot_be_added_witness :
  handleAddContact "ABC123" "NONAME" 3 Scenario.nameless
  = (Done tt,
     log (Sent 3 (EError "User with that code does not exist."))
       Scenario.nameless).
Proof.
  by apply (empty_username_cannot_be_added Scenario.nameless
              "ABC123" "NONAME" 3).
Defined.

(** ** Every event changes the stored state by the steps *)

Lemma database_eta (d : database) : Database (users d) (chats d) = d.
Proof. by destruct d. Qed.

Lemma steps_bind {A B} (m : M A) (k : A → M B) :
  (∀ w, rtc step (st w) (st (m w).2)) →
  (∀ a w, rtc step (st w) (st (k a w).2)) →
  ∀ w, rtc step (st w) (st ((m ≫= k) w).2).
Proof.
  intros Hm Hk w. unfold mbind, M_bind.
  specialize (Hm w). destruct (m w) as [[a|e|] w1]; simpl in *; [|done..].
  etrans; [exact Hm|apply Hk].
Qed.

Lemma steps_quiet {A} (m : M A) :
  quiet m → ∀ w, rtc step (st w) (st (m w).2).
Proof.
  intros Hm w. destruct (Hm w) as (a & new & -> & _). simpl.
  unfold st. simpl. reflexivity.
Qed.

Lemma steps_saveDatabase : ∀ w, rtc step (st w) (st (saveDatabase w).2).
Proof. intros w. unfold st. simpl. reflexivity. Qed.

Lemma steps_push_contact (name : option string) (code : field) :
  ∀ w, rtc step (st w) (st (push_contact name code w).2).
Proof.
  intros w. unfold push_contact, users_at. run. simpl.
  destruct (users_own (users (db w)) (key_of name)) as [u|] eqn:Hu;
    [|reflexivity].
  destruct (bool_decide (code ∈ contacts u)); [reflexivity|].
  run. simpl. unfold st. simpl. unfold users_set. rewrite Hu.
  apply rtc_once. by apply (step_contact (db w)).
Qed.

Lemma steps_handleAddContact (A T : field) (ws : conn) :
  ∀ w, rtc step (st w) (st (handleAddContact A T ws w).2).
Proof.
  unfold handleAddContact. apply steps_bind; [by apply steps_quiet, quiet_gets|].
  intros d.
  destruct (falsy_name (find_username (users d) T));
    [apply steps_quiet, quiet_ws_send|].
  destruct (field_eqb A T); [apply steps_quiet, quiet_ws_send|].
  apply steps_bind; [apply steps_push_contact|]. intros _.
  apply steps_bind; [apply steps_push_contact|]. intros _.
  apply steps_bind; [apply steps_saveDatabase|]. intros _.
  apply steps_bind; [apply steps_quiet, quiet_sendContactListUpdate|].
  intros _.
  apply steps_bind; [by apply steps_quiet, quiet_gets|]. intros cs.
  destruct (clients_get cs T);
    [apply steps_quiet, quiet_sendContactListUpdate|apply steps_quiet, quiet_ret].
Qed.

Lemma steps_handleSignup (fuel : nat) (username pw : field) (ws : conn) :
  ∀ w, rtc step (st w) (st (handleSignup fuel username pw ws w).2).
Proof.
  intros w.
  destruct (handleSignup_outcome fuel w username pw ws)
    as (r & w' & -> & _ & Hcl & Hch & [Hus|(code & Hnone & Hcode & Hus)]);
    simpl; unfold st; rewrite Hcl, <- (database_eta (db w')), Hch, Hus.
  - rewrite database_eta. reflexivity.
  - apply rtc_once. by apply (step_signup (db w)).
Qed.

Lemma steps_bound (w : world) (code : field) (ws : conn)
    (new : list effect) :
  (code = Absent
   ∨ ∃ n u, users_own (users (db w)) n = Some u ∧ code = Str (userCode u)) →
  rtc step (st w) (st (add_trace new (bound code ws w))).
Proof.
  intros [->|(n & u & Hu & ->)]; apply rtc_once; unfold st; simpl.
  - apply step_bind_undefined.
  - by eapply step_bind.
Qed.

Lemma steps_login (w : world) (username pw : field) (ws : conn) :
  rtc step (st w) (st (handleLogin username pw ws w).2).
Proof.
  destruct (handleLogin_outcome w username pw ws)
    as [(msg & ->)|(code & new & -> & _ & Hcode)]; [reflexivity|].
  by apply steps_bound.
Qed.

Lemma steps_reconnect (w : world) (username code : field) (ws : conn) :
  rtc step (st w) (st (handleReconnect username code ws w).2).
Proof.
  destruct (handleReconnect_outcome w username code ws)
    as [(msg & ->)|(new & -> & _ & Hcode)]; [reflexivity|].
  by apply steps_bound.
Qed.

Lemma steps_send (w : world) (A B t : field) (ws : conn) :
  rtc step (st w) (st (handleSendMessage A B t ws w).2).
Proof.
  destruct (handleSendMessage_run w A B t ws)
    as (w' & -> & Hch & Hus & Hcl & _). simpl.
  unfold st. rewrite Hcl, <- (database_eta (db w')), Hch, Hus.
  apply rtc_once. apply (step_send (db w)).
Qed.

Lemma steps_read (w : world) (R M S : field) :
  rtc step (st w) (st (handleReadMessage R M S w).2).
Proof.
  destruct M as [|M]; [by rewrite handleReadMessage_no_id|].
  destruct (chats (db w) !! getChatKey R S) as [chat|] eqn:Hchat.
  2:{ rewrite handleReadMessage_skip; [reflexivity|]. by rewrite Hchat. }
  destruct (list_find (λ m, id m = M) chat) as [[k m]|] eqn:Hfind.
  2:{ rewrite handleReadMessage_skip; [reflexivity|].
      by rewrite Hchat, Hfind. }
  destruct (read m) eqn:Hread.
  { rewrite handleReadMessage_skip; [reflexivity|].
    by rewrite Hchat, Hfind. }
  destruct (handleReadMessage_mark w R M S chat k m Hchat Hfind Hread)
    as (w' & -> & Hch & Hus & Hcl & _). simpl.
  unfold st. rewrite Hcl, <- (database_eta (db w')), Hch, Hus.
  apply rtc_once. apply (step_read (db w)); [done|].
  by apply list_find_Some in Hfind as [? _].
Qed.

Lemma steps_close (ws : conn) :
  ∀ w, rtc step (st w) (st (on_close ws w).2).
Proof.
  intros w. unfold on_close. erewrite bind_Done by reflexivity.
  generalize (clients w) as entries.
  induction entries as [|[code c] entries IH]; simpl; [reflexivity|].
  destruct (Nat.eqb c ws); [|exact IH].
  erewrite bind_Done by reflexivity.
  etrans; [|apply steps_quiet, quiet_broadcastOnlineStatus].
  apply rtc_once. apply (step_unbind (db w)).
Qed.

Lemma steps_react (fuel : nat) (e : event) :
  ∀ w, rtc step (st w) (st (react fuel e w).2).
Proof.
  intros w. destruct e as [ws [|d]|ws]; simpl;
    [reflexivity| |apply steps_close].
  assert (H : rtc step (st w) (st (handleMessage fuel d ws w).2)).
  { pose proof (handleMessage_cases fuel d ws) as Hcases.
    destruct (request_of d) as [r|].
    - destruct Hcases as [-> _]. destruct r; unfold serve.
      + apply steps_handleSignup.
      + apply steps_login.
      + apply steps_handleAddContact.
      + apply steps_quiet, quiet_handleGetChat.
      + apply steps_send.
      + apply steps_quiet, quiet_handleTyping.
      + apply steps_read.
      + apply steps_reconnect.
    - destruct Hcases as [[-> _]|[-> _]]; reflexivity. }
  by destruct (handleMessage fuel d ws w) as [[[]|e|] w'].
Qed.

Lemma steps_run_events (fuel : nat) (es : list event) :
  ∀ w, rtc step (st w) (st (run_events fuel es w).2).
Proof.
  unfold run_events. induction es as [|e es IH]; simpl; [reflexivity|].
  apply steps_bind; [apply steps_react|]. intros _. apply IH.
Qed.

(** An invariant of the steps is an invariant of the runs. *)
Lemma invariant_run_events (P : state → Prop) :
  (∀ s s', step s s' → P s → P s') →
  ∀ fuel es w, P (st w) → P (st (run_events fuel es w).2).
Proof.
  intros Hstep fuel es w HP.
  induction (steps_run_events fuel es w) as [|s1 s2 s3 H12 _ IH]; [done|].
  by apply IH, (Hstep s1).
Qed.

(** ** Invariants of the runs *)

Lemma step_accounts (s s' : state) (n : string) (u : user) :
  step s s' →
  users_own (users s.1) n = Some u →
  ∃ u', users_own (users s'.1) n = Some u'
        ∧ password u' = password u ∧ userCode u' = userCode u
        ∧ contacts u `prefix_of` contacts u'.
Proof.
  intros Hstep Hu.
  destruct Hstep as [d cs k u0 Hnone _ _|d cs k u0 c Hk| | | | |];
    simpl in *; try (by exists u).
  - exists u. split_and!; try done. rewrite users_own_add by done.
    destruct (String.eqb k n) eqn:E; [|done].
    apply String.eqb_eq in E as ->. congruence.
  - destruct (decide (k = n)) as [->|Hne].
    + eexists. split; [by eapply users_own_replace_eq|].
      assert (u0 = u) as -> by congruence. simpl.
      split_and!; try done. by apply prefix_app_r.
    + exists u. split_and!; try done. by rewrite users_own_replace_ne.
Qed.

(** X20. Accounts are never deleted and never lose anything: whatever
    events follow, an account keeps its user name, password and code, and
    its contact list only grows at the end. *)
Theorem accounts_never_change
    (fuel : nat) (es : list event) (w : world) (n : string) (u : user) :
  users_own (users (db w)) n = Some u →
  ∃ u',
    users_own (users (db (run_events fuel es w).2)) n = Some u'
    ∧ password u' = password u
    ∧ userCode u' = userCode u
    ∧ contacts u `prefix_of` contacts u'.
Proof.
  intros Hu.
  apply (invariant_run_events
           (λ s, ∃ u', users_own (users s.1) n = Some u'
                       ∧ password u' = password u
                       ∧ userCode u' = userCode u
                       ∧ contacts u `prefix_of` contacts u')).
  - intros s s' Hstep (u1 & Hu1 & Hpw & Hcode & Hpre).
    destruct (step_accounts s s' n u1 Hstep Hu1)
      as (u2 & Hu2 & Hpw2 & Hcode2 & Hpre2).
    exists u2. split_and!; [done|congruence|congruence|by etrans].
  - by exists u.
Qed.

Lemma accounts_never_change_witness :
  ∃ u',
    users_own (users (db (run_events 2 Scenario.busy_day
                            Scenario.strangers).2)) "alice" = Some u'
    ∧ password u' = "pw1"
    ∧ userCode u' = "ABC123"
    ∧ [] `prefix_of` contacts u'.
Proof.
  apply (accounts_never_change 2 Scenario.busy_day Scenario.strangers
           "alice" (User "pw1" "ABC123" [])).
  reflexivity.
Defined.

Lemma users_add_perm (k : string) (u : user) (us : list (string * user)) :
  users_add k u us ≡ₚ (k, u) :: us.
Proof.
  induction us as [|[k' u'] us IH]; simpl; [done|].
  assert (Hgo : (k', u') :: users_add k u us ≡ₚ (k, u) :: (k', u') :: us).
  { rewrite IH. apply Permutation_swap. }
  destruct (JS.array_index k) as [n|], (JS.array_index k') as [n'|];
    try destruct (n <? n')%N; done.
Qed.

Lemma codes_replace (us : list (string * user)) (n : string) (u u' : user) :
  users_own us n = Some u → userCode u' = userCode u →
  map (λ p, userCode p.2) (users_replace n u' us)
  = map (λ p, userCode p.2) us.
Proof.
  intros Hu Hcode. induction us as [|[k0 u0] us IH]; simpl in *; [done|].
  destruct (String.eqb k0 n); simpl.
  - injection Hu as ->. by rewrite Hcode.
  - by rewrite IH.
Qed.

Lemma step_codes (s s' : state) :
  step s s' →
  codes s'.1 = codes s.1
  ∨ ∃ code, (code ∉ codes s.1) ∧ codes s'.1 ≡ₚ code :: codes s.1.
Proof.
  intros [d cs k u Hnone Hcode _|d cs k u c Hk| | | | |]; simpl;
    try (by left).
  - right. exists (userCode u). split.
    + unfold existing_codes in Hcode. by rewrite elem_of_list_to_set in Hcode.
    + unfold codes. simpl. by rewrite users_add_perm.
  - left. unfold codes. simpl. by eapply codes_replace.
Qed.

(** X21. If no two accounts have the same code, no run of events makes
    two accounts have the same code. *)
Theorem codes_stay_unique (fuel : nat) (es : list event) (w : world) :
  NoDup (codes (db w)) →
  NoDup (codes (db (run_events fuel es w).2)).
Proof.
  apply (invariant_run_events (λ s, NoDup (codes s.1))).
  intros s s' Hstep Hnd.
  destruct (step_codes s s' Hstep) as [->|(code & Hcode & ->)]; [done|].
  by apply NoDup_cons.
Qed.

Lemma codes_stay_unique_witness :
  NoDup (codes (db (run_events 2 Scenario.busy_day Scenario.strangers).2)).
Proof.
  apply (codes_stay_unique 2 Scenario.busy_day Scenario.strangers).
  cbn. apply NoDup_cons. split; [|apply NoDup_singleton].
  by intros ?%list_elem_of_singleton.
Defined.

Lemma same_but_read_refl (m : message) : same_but_read m m.
Proof. by unfold same_but_read. Qed.

Lemma same_but_read_trans (m1 m2 m3 : message) :
  same_but_read m1 m2 → same_but_read m2 m3 → same_but_read m1 m3.
Proof. unfold same_but_read. intuition congruence. Qed.

Lemma same_but_read_mark (m : message) : same_but_read m (mark_read m).
Proof. by unfold same_but_read. Qed.

Lemma Forall2_same_refl (chat : list message) :
  Forall2 same_but_read chat chat.
Proof. induction chat; constructor; [apply same_but_read_refl|done]. Qed.

Lemma grows_refl (chat : list message) : grows chat chat.
Proof.
  exists chat, []. split; [by rewrite app_nil_r|apply Forall2_same_refl].
Qed.

Lemma grows_trans (c1 c2 c3 : list message) :
  grows c1 c2 → grows c2 c3 → grows c1 c3.
Proof.
  intros (k1 & a1 & -> & H1) (k2 & a2 & -> & H2).
  apply Forall2_app_inv_l in H2 as (ka & kb & Hka & _ & ->).
  exists ka, (kb ++ a2). split; [by rewrite app_assoc|].
  clear -H1 Hka. revert ka Hka.
  induction H1 as [|m m' c k Hm _ IH]; intros ka Hka.
  - by apply Forall2_nil_inv_l in Hka as ->.
  - apply Forall2_cons_inv_l in Hka as (m'' & ka' & Hm' & Hka' & ->).
    constructor; [by eapply same_but_read_trans|by apply IH].
Qed.

Lemma grows_snoc (chat : list message) (m : message) :
  grows chat (chat ++ [m]).
Proof. exists chat, [m]. split; [done|apply Forall2_same_refl]. Qed.

Lemma grows_mark (chat : list message) (k : nat) (m : message) :
  chat !! k = Some m → grows chat (<[k := mark_read m]> chat).
Proof.
  intros Hk. exists (<[k := mark_read m]> chat), [].
  split; [by rewrite app_nil_r|].
  rewrite <- (list_insert_id chat k m) at 1 by done.
  apply Forall2_insert; [apply Forall2_same_refl|apply same_but_read_mark].
Qed.

Lemma step_conversations (s s' : state) (key : string) (chat : list message) :
  step s s' →
  chats s.1 !! key = Some chat →
  ∃ chat', chats s'.1 !! key = Some chat' ∧ grows chat chat'.
Proof.
  intros Hstep Hchat.
  destruct Hstep as [| |d cs key0 m|d cs key0 chat0 k m Hchat0 Hk| | |];
    simpl in *; try (exists chat; split; [done|apply grows_refl]).
  - destruct (decide (key0 = key)) as [->|Hne].
    + rewrite lookup_insert_eq, Hchat. simpl.
      eexists. split; [done|apply grows_snoc].
    + rewrite lookup_insert_ne by done.
      exists chat; split; [done|apply grows_refl].
  - destruct (decide (key0 = key)) as [->|Hne].
    + rewrite lookup_insert_eq.
      assert (chat0 = chat) as -> by congruence.
      eexists. split; [done|by apply grows_mark].
    + rewrite lookup_insert_ne by done.
      exists chat; split; [done|apply grows_refl].
Qed.

(** X22. Conversations are append-only and messages are immutable but
    for the read flag: whatever events follow, a conversation still
    exists, begins with the messages it had, in place, each with the same
    identifier, sender, receiver, text and timestamp and with its read
    flag still set if it was set, and may go on with newer messages. *)
Theorem conversations_append_only
    (fuel : nat) (es : list event) (w : world) (key : string)
    (chat : list message) :
  chats (db w) !! key = Some chat →
  ∃ chat',
    chats (db (run_events fuel es w).2) !! key = Some chat'
    ∧ grows chat chat'.
Proof.
  intros Hchat.
  apply (invariant_run_events
           (λ s, ∃ chat', chats s.1 !! key = Some chat' ∧ grows chat chat')).
  - intros s s' Hstep (c1 & Hc1 & Hg1).
    destruct (step_conversations s s' key c1 Hstep Hc1) as (c2 & Hc2 & Hg2).
    exists c2. split; [done|by eapply grows_trans].
  - exists chat. split; [done|apply grows_refl].
Qed.

Lemma conversations_append_only_witness :
  ∃ chat',
    chats (db (run_events 2 Scenario.busy_day Scenario.chatting).2)
      !! "ABC123-XYZ789" = Some chat'
    ∧ grows [Scenario.hello] chat'.
Proof.
  apply (conversations_append_only 2 Scenario.busy_day Scenario.chatting
           "ABC123-XYZ789" [Scenario.hello]).
  reflexivity.
Defined.

Lemma clients_delete_keys (cs : list (field * conn)) (code : field) :
  (clients_delete code cs).*1 `sublist_of` cs.*1.
Proof.
  induction cs as [|[k c] cs IH]; csimpl; [done|].
  destruct (field_eqb k code); csimpl.
  - by apply sublist_cons.
  - by apply sublist_skip.
Qed.

(** X23. The registry never holds two entries for one code: if it has at
    most one entry per code, so it has after any run of events. *)
Theorem registry_one_binding_per_code
    (fuel : nat) (es : list event) (w : world) :
  NoDup (clients w).*1 →
  NoDup (clients (run_events fuel es w).2).*1.
Proof.
  apply (invariant_run_events (λ s, NoDup s.2.*1)).
  intros s s' [| | | |d cs n u ws _|d cs ws|d cs code] Hnd; simpl in *;
    try done.
  - by apply clients_set_NoDup.
  - by apply clients_set_NoDup.
  - eapply sublist_NoDup; [|apply clients_delete_keys]. done.
Qed.

Lemma registry_one_binding_per_code_witness :
  NoDup (clients (run_events 2 Scenario.busy_day Scenario.both_online).2).*1.
Proof.
  apply (registry_one_binding_per_code 2 Scenario.busy_day
           Scenario.both_online).
  cbn. apply NoDup_cons. split; [|apply NoDup_singleton].
  by intros ?%list_elem_of_singleton.
Defined.

Lemma clients_set_keys (cs : list (field * conn)) (code : field)
    (ws : conn) (k : field) :
  k ∈ (clients_set code ws cs).*1 → k ∈ cs.*1 ∨ k = code.
Proof.
  destruct (decide (code ∈ cs.*1)) as [Hb|Hb].
  - rewrite clients_set_keys_bound by done. by left.
  - rewrite clients_set_keys_fresh by done.
    intros [?| ->%list_elem_of_singleton]%elem_of_app; [by left|by right].
Qed.

(** X24. The keys of the registry are codes of accounts or [undefined],
    the key a login or a reconnect under a user name of
    [Object.prototype] binds: if every key of the registry is [undefined]
    or the code of an account, so it is after any run of events. *)
Theorem registry_binds_only_accounts
    (fuel : nat) (es : list event) (w : world) :
  (∀ k, k ∈ (clients w).*1 →
        k = Absent ∨ ∃ code, k = Str code ∧ code ∈ codes (db w)) →
  ∀ k,
    k ∈ (clients (run_events fuel es w).2).*1 →
    k = Absent
    ∨ ∃ code, k = Str code ∧ code ∈ codes (db (run_events fuel es w).2).
Proof.
  apply (invariant_run_events
           (λ s, ∀ k, k ∈ s.2.*1 →
                      k = Absent ∨ ∃ code, k = Str code ∧ code ∈ codes s.1)).
  intros s s' Hstep Hin k Hk.
  assert (Hcodes : ∀ c, c ∈ codes s.1 → c ∈ codes s'.1).
  { intros c Hc. destruct (step_codes s s' Hstep) as [->|(c' & _ & ->)];
      [done|by right]. }
  assert (Hold : k ∈ s.2.*1 →
            k = Absent ∨ ∃ code, k = Str code ∧ code ∈ codes s'.1).
  { intros [->|(code & -> & Hc)]%Hin; [by left|].
    right. exists code. split; [done|by apply Hcodes]. }
  destruct Hstep as [| | | |d cs n u ws Hu|d cs ws|d cs code0]; simpl in *;
    try (by apply Hold).
  - apply clients_set_keys in Hk as [?| ->]; [by apply Hold|].
    right. exists (userCode u). split; [done|].
    apply existing_codes_spec in Hu. unfold existing_codes in Hu.
    by rewrite elem_of_list_to_set in Hu.
  - apply clients_set_keys in Hk as [?| ->]; [by apply Hold|by left].
  - apply Hold. eapply elem_of_sublist; [done|apply clients_delete_keys].
Qed.

Lemma registry_binds_only_accounts_witness :
  Str "XYZ789" = Absent
  ∨ ∃ code,
      Str "XYZ789" = Str code
      ∧ code ∈ codes (db (run_events 2 Scenario.busy_day
                            Scenario.both_online).2).
Proof.
  apply (registry_binds_only_accounts 2 Scenario.busy_day
           Scenario.both_online).
  - intros k Hin. cbn in *. right.
    apply elem_of_cons in Hin as [->|Hin]; [exists "ABC123"; split; [done|by left]|].
    apply list_elem_of_singleton in Hin as ->.
    exists "XYZ789". split; [done|]. right. by left.
  - vm_compute. left.
Defined.

(** ** Fresh identifiers *)

Lemma keeps_ret {A} (a : A) : keeps_chats (mret a).
Proof. by intros w. Qed.

Lemma keeps_gets {A} (f : world → A) : keeps_chats (gets f).
Proof. by intros w. Qed.

Lemma keeps_throw {A} (e : string) : keeps_chats (throw (A := A) e).
Proof. by intros w. Qed.

Lemma keeps_bind {A B} (m : M A) (k : A → M B) :
  keeps_chats m → (∀ a, keeps_chats (k a)) → keeps_chats (m ≫= k).
Proof.
  intros Hm Hk w. unfold mbind, M_bind.
  destruct (Hm w) as (H1 & H2 & H3).
  destruct (m w) as [[a|e|] w1]; simpl in *; [|done..].
  destruct (Hk a w1) as (H4 & H5 & H6). split_and!; congruence.
Qed.

Lemma keeps_quiet {A} (m : M A) : quiet m → keeps_chats m.
Proof. intros Hm w. by destruct (Hm w) as (a & new & -> & _). Qed.

Lemma keeps_forEach {A} (l : list A) (f : A → M unit) :
  (∀ x, keeps_chats (f x)) → keeps_chats (forEach l f).
Proof.
  intros Hf. induction l as [|x l IH]; simpl; [apply keeps_ret|].
  apply keeps_bind; [apply Hf|]. intros _. apply IH.
Qed.

Lemma keeps_push_contact (name : option string) (code : field) :
  keeps_chats (push_contact name code).
Proof.
  unfold push_contact. apply keeps_bind; [apply keeps_gets|]. intros us.
  destruct (users_at us name) as [u|]; [|apply keeps_throw].
  destruct (bool_decide _); [apply keeps_ret|]. by intros w.
Qed.

Lemma keeps_handleAddContact (A T : field) (ws : conn) :
  keeps_chats (handleAddContact A T ws).
Proof.
  unfold handleAddContact. apply keeps_bind; [apply keeps_gets|]. intros d.
  destruct (falsy_name _); [apply keeps_quiet, quiet_ws_send|].
  destruct (field_eqb A T); [apply keeps_quiet, quiet_ws_send|].
  apply keeps_bind; [apply keeps_push_contact|]. intros _.
  apply keeps_bind; [apply keeps_push_contact|]. intros _.
  apply keeps_bind; [by intros w|]. intros _.
  apply keeps_bind; [apply keeps_quiet, quiet_sendContactListUpdate|].
  intros _. apply keeps_bind; [apply keeps_gets|]. intros cs.
  destruct (clients_get cs T);
    [apply keeps_quiet, quiet_sendContactListUpdate|apply keeps_ret].
Qed.

Lemma keeps_generateUserCode_loop (existing : gset string) (fuel : nat) :
  keeps_chats (generateUserCode_loop fuel existing).
Proof.
  induction fuel as [|fuel IH]; simpl; [by intros w|].
  apply keeps_bind; [by intros w|]. intros r.
  destruct (bool_decide _); [apply IH|apply keeps_ret].
Qed.

Lemma keeps_handleSignup (fuel : nat) (username pw : field) (ws : conn) :
  keeps_chats (handleSignup fuel username pw ws).
Proof.
  unfold handleSignup. apply keeps_bind; [apply keeps_gets|]. intros d.
  destruct (truthy _); [apply keeps_quiet, quiet_ws_send|].
  apply keeps_bind.
  { unfold generateUserCode. apply keeps_bind; [apply keeps_gets|].
    intros us. apply keeps_generateUserCode_loop. }
  intros code. apply keeps_bind; [by intros w|]. intros _.
  apply keeps_bind; [by intros w|]. intros _.
  apply keeps_quiet, quiet_ws_send.
Qed.

Lemma keeps_handleLogin (username pw : field) (ws : conn) :
  keeps_chats (handleLogin username pw ws).
Proof.
  intros w.
  by destruct (handleLogin_outcome w username pw ws)
    as [(msg & ->)|(code & new & -> & _)].
Qed.

Lemma keeps_handleReconnect (username code : field) (ws : conn) :
  keeps_chats (handleReconnect username code ws).
Proof.
  intros w.
  by destruct (handleReconnect_outcome w username code ws)
    as [(msg & ->)|(new & -> & _)].
Qed.

Lemma keeps_on_close (ws : conn) : keeps_chats (on_close ws).
Proof.
  intros w. unfold on_close. erewrite bind_Done by reflexivity.
  generalize (clients w) as entries.
  induction entries as [|[code c] entries IH]; simpl; [done|].
  destruct (Nat.eqb c ws); [|exact IH].
  erewrite bind_Done by reflexivity.
  by destruct (quiet_broadcastOnlineStatus code false
                 (set_clients (clients_delete code (clients w)) w))
    as ([] & new & -> & _).
Qed.

Lemma ids_drawn_stable (w w' : world) :
  chats (db w') = chats (db w) → env w' = env w → n_uuid w' = n_uuid w →
  ids_drawn w → ids_drawn w'.
Proof. unfold ids_drawn. by intros -> -> ->. Qed.

Lemma ids_drawn_send (w : world) (A B t : field) (ws : conn) :
  ids_drawn w →
  ids_drawn (handleSendMessage A B t ws w).2
  ∧ env (handleSendMessage A B t ws w).2 = env w.
Proof.
  intros Hw. unfold handleSendMessage. run. simpl.
  split; [|by destruct (clients_get (clients w) B)].
  intros key chat m.
  assert (Hsame : ∀ w1 : world,
            chats (db w1)
            = <[getChatKey A B
                := default [] (chats (db w) !! getChatKey A B)
                   ++ [message_of w A B t]]> (chats (db w)) →
            env w1 = env w → n_uuid w1 = S (n_uuid w) →
            chats (db w1) !! key = Some chat → m ∈ chat →
            ∃ k, k < n_uuid w1 ∧ id m = uuid_seq (env w1) k).
  { intros w1 -> -> -> Hkey Hin.
    destruct (decide (getChatKey A B = key)) as [<-|Hne].
    - rewrite lookup_insert_eq in Hkey. injection Hkey as <-.
      apply elem_of_app in Hin as [Hin| ->%list_elem_of_singleton].
      + destruct (chats (db w) !! getChatKey A B) as [c|] eqn:Hc;
          [|by apply elem_of_nil in Hin].
        destruct (Hw _ _ _ Hc Hin) as (k & Hk & ->). exists k. split; [lia|done].
      + exists (n_uuid w). split; [lia|done].
    - rewrite lookup_insert_ne in Hkey by done.
      destruct (Hw _ _ _ Hkey Hin) as (k & Hk & ->). exists k. split; [lia|done]. }
  destruct (clients_get (clients w) B); by apply Hsame.
Qed.

Lemma ids_drawn_read (w : world) (R M S : field) :
  ids_drawn w →
  ids_drawn (handleReadMessage R M S w).2
  ∧ env (handleReadMessage R M S w).2 = env w.
Proof.
  intros Hw. destruct M as [|M]; [by rewrite handleReadMessage_no_id|].
  destruct (chats (db w) !! getChatKey R S) as [chat|] eqn:Hchat.
  2:{ rewrite handleReadMessage_skip; [done|]. by rewrite Hchat. }
  destruct (list_find (λ m, id m = M) chat) as [[k m]|] eqn:Hfind.
  2:{ rewrite handleReadMessage_skip; [done|]. by rewrite Hchat, Hfind. }
  destruct (read m) eqn:Hread.
  { rewrite handleReadMessage_skip; [done|]. by rewrite Hchat, Hfind. }
  apply list_find_Some in Hfind as Hk. destruct Hk as (Hk & _ & _).
  unfold handleReadMessage. run. rewrite Hchat, list_find_Str, Hfind, Hread.
  run. simpl.
  split; [|by destruct (clients_get (clients w) S)].
  intros key chat' m'.
  assert (Hsame : ∀ w1 : world,
            chats (db w1)
            = <[getChatKey R S := <[k := mark_read m]> chat]> (chats (db w)) →
            env w1 = env w → n_uuid w1 = n_uuid w →
            chats (db w1) !! key = Some chat' → m' ∈ chat' →
            ∃ j, j < n_uuid w1 ∧ id m' = uuid_seq (env w1) j).
  { intros w1 -> -> -> Hkey Hin.
    destruct (decide (getChatKey R S = key)) as [<-|Hne].
    - rewrite lookup_insert_eq in Hkey. injection Hkey as <-.
      apply list_elem_of_lookup in Hin as [j Hj].
      destruct (decide (j = k)) as [->|Hjk].
      + rewrite list_lookup_insert_eq in Hj by (by eapply lookup_lt_Some).
        injection Hj as <-. simpl.
        eapply (Hw _ _ m Hchat). by eapply list_elem_of_lookup_2.
      + rewrite list_lookup_insert_ne in Hj by done.
        eapply (Hw _ _ m' Hchat). by eapply list_elem_of_lookup_2.
    - rewrite lookup_insert_ne in Hkey by done. by eapply Hw. }
  destruct (clients_get (clients w) S); by apply Hsame.
Qed.

Lemma ids_drawn_keeps {A} (m : M A) (w : world) :
  keeps_chats m → ids_drawn w →
  ids_drawn (m w).2 ∧ env (m w).2 = env w.
Proof.
  intros Hm Hw. destruct (Hm w) as (H1 & H2 & H3).
  split; [by eapply ids_drawn_stable|done].
Qed.

Lemma ids_drawn_serve (fuel : nat) (r : request) (ws : conn) (w : world) :
  ids_drawn w →
  ids_drawn (serve fuel r ws w).2 ∧ env (serve fuel r ws w).2 = env w.
Proof.
  destruct r; unfold serve.
  - apply ids_drawn_keeps, keeps_handleSignup.
  - apply ids_drawn_keeps, keeps_handleLogin.
  - apply ids_drawn_keeps, keeps_handleAddContact.
  - apply ids_drawn_keeps, keeps_quiet, quiet_handleGetChat.
  - apply ids_drawn_send.
  - apply ids_drawn_keeps, keeps_quiet, quiet_handleTyping.
  - apply ids_drawn_read.
  - apply ids_drawn_keeps, keeps_handleReconnect.
Qed.

Lemma ids_drawn_react (fuel : nat) (e : event) (w : world) :
  ids_drawn w →
  ids_drawn (react fuel e w).2 ∧ env (react fuel e w).2 = env w.
Proof.
  intros Hw. destruct e as [ws [|d]|ws]; simpl.
  - done.
  - assert (H : ids_drawn (handleMessage fuel d ws w).2
                ∧ env (handleMessage fuel d ws w).2 = env w).
    { pose proof (handleMessage_cases fuel d ws) as Hcases.
      destruct (request_of d) as [r|].
      - destruct Hcases as [-> _]. by apply ids_drawn_serve.
      - by destruct Hcases as [[-> _]|[-> _]]. }
    by destruct (handleMessage fuel d ws w) as [[[]|e|] w'].
  - by apply ids_drawn_keeps; [apply keeps_on_close|].
Qed.

Lemma ids_drawn_run_events (fuel : nat) (es : list event) :
  ∀ w, ids_drawn w →
       ids_drawn (run_events fuel es w).2
       ∧ env (run_events fuel es w).2 = env w.
Proof.
  unfold run_events. induction es as [|e es IH]; intros w Hw; [done|].
  simpl. unfold mbind, M_bind.
  destruct (ids_drawn_react fuel e w Hw) as [Hw1 Henv1].
  destruct (react fuel e w) as [[[]|err|] w1]; simpl in *; [|done..].
  destruct (IH w1 Hw1) as [Hw2 Henv2]. split; [done|congruence].
Qed.

Lemma env0_collision_free : collision_free Scenario.env0.
Proof.
  intros j k Heq. simpl in Heq. injection Heq as Heq.
  apply (f_equal String.list_ascii_of_string) in Heq.
  rewrite !String.list_ascii_of_string_of_list_ascii in Heq.
  apply (f_equal length) in Heq. by rewrite !repeat_length in Heq.
Qed.

(** C1. In every state the server reaches, by whatever events, from a
    state in which each stored message carries an identifier the
    generator has handed out (an empty store, for one), and with a
    generator that never hands out the same value twice: for every
    sendMessage with sender code [A], receiver code [B] and text [t], the
    server builds a message carrying the identifier the generator hands
    out next, which no stored message has (it is fresh, and so unique in
    the store afterwards), the current timestamp and [read = false];
    appends it to the conversation under the canonical key of [(A, B)];
    writes the store, with the message in it, before any frame leaves;
    then sends [newMessage] with that message to [B]'s socket exactly when
    the registry has an entry for [B]; and in every case ends with
    [messageSent], carrying the same message, on the submitting socket. *)
Theorem sendMessage_stores_then_notifies
    (fuel : nat) (es : list event) (w0 : world) (A B t : string)
    (ws : conn) :
  let w := (run_events fuel es w0).2 in
  let m := message_of w A B t in
  let key := getChatKey A B in
  let old := default [] (chats (db w) !! key) in
  collision_free (env w0) →
  ids_drawn w0 →
  ∃ w',
    handleSendMessage A B t ws w = (Done tt, w')
    ∧ id m = uuid_seq (env w) (n_uuid w)
    ∧ (∀ k c m', chats (db w) !! k = Some c → m' ∈ c → id m' ≠ id m)
    ∧ timestamp m = clock_seq (env w) (n_clock w)
    ∧ read m = false
    ∧ chats (db w') = <[key := old ++ [m]]> (chats (db w))
    ∧ (∀ k c j m', chats (db w') !! k = Some c → c !! j = Some m' →
         id m' = id m → k = key ∧ j = length old)
    ∧ users (db w') = users (db w)
    ∧ clients w' = clients w
    ∧ match clients_get (clients w) B with
      | Some recipientWs =>
          trace w' = trace w ++ [Saved (db w');
                                 Sent recipientWs (ENewMessage m);
                                 Sent ws (EMessageSent m)]
      | None =>
          trace w' = trace w ++ [Saved (db w'); Sent ws (EMessageSent m)]
      end.
Proof.
  intros w m key old Hfree Hw0.
  destruct (ids_drawn_run_events fuel es w0 Hw0) as [Hw Henv]. fold w in Hw, Henv.
  assert (Hfresh : ∀ k c m', chats (db w) !! k = Some c → m' ∈ c →
                              id m' ≠ id m).
  { intros k c m' Hk Hin Hid. destruct (Hw k c m' Hk Hin) as (j & Hj & Hm').
    simpl in Hid. rewrite Hm', Henv in Hid. apply Hfree in Hid. lia. }
  destruct (handleSendMessage_run w A B t ws) as (w' & Hrun & Hch & Hus & Hcl & Htr).
  fold m key old in Hch, Htr.
  exists w'. split_and!; try done.
  - intros k c j m' Hk Hj Hid.
    rewrite Hch in Hk.
    destruct (decide (key = k)) as [<-|Hne].
    + rewrite lookup_insert_eq in Hk. injection Hk as <-.
      split; [done|].
      destruct (decide (j < length old)) as [Hlt|Hge].
      * rewrite lookup_app_l in Hj by done.
        exfalso. subst old.
        destruct (chats (db w) !! key) as [c|] eqn:Hc; simpl in *.
        -- eapply Hfresh; [exact Hc| |exact Hid].
           by eapply list_elem_of_lookup_2.
        -- lia.
      * apply lookup_lt_Some in Hj as Hlen. rewrite length_app in Hlen.
        simpl in Hlen. lia.
    + rewrite lookup_insert_ne in Hk by done.
      exfalso. eapply Hfresh; [exact Hk| |exact Hid].
      by eapply list_elem_of_lookup_2.
  - unfold delivery in Htr.
    by destruct (clients_get (clients w) B).
Qed.

Lemma sendMessage_stores_then_notifies_witness :
  let es := [Message_in 3 (SendMessage "ABC123" "XYZ789" "hello")] in
  let w := (run_events 0 es Scenario.boot).2 in
  let m := message_of w "XYZ789" "ABC123" "hi" in
  collision_free (env Scenario.boot)
  ∧ ids_drawn Scenario.boot
  ∧ ∃ w',
      handleSendMessage "XYZ789" "ABC123" "hi" 7 w = (Done tt, w')
      ∧ id m = "id00"
      ∧ chats (db w') !! "ABC123-XYZ789"
        = Some [message_of Scenario.boot "ABC123" "XYZ789" "hello"; m]
      ∧ (∀ k c m', chats (db w) !! k = Some c → m' ∈ c → id m' ≠ id m)
      ∧ trace w' = trace w ++ [Saved (db w'); Sent 7 (EMessageSent m)].
Proof.
  intros es w m.
  assert (Hfree : collision_free (env Scenario.boot))
    by apply env0_collision_free.
  assert (Hboot : ids_drawn Scenario.boot).
  { intros key chat m' Hkey. simpl in Hkey. by rewrite lookup_empty in Hkey. }
  split; [exact Hfree|]. split; [exact Hboot|].
  destruct (sendMessage_stores_then_notifies 0 es Scenario.boot
              "XYZ789" "ABC123" "hi" 7 Hfree Hboot)
    as (w' & Hrun & _ & Hfresh & _ & _ & Hch & _ & _ & _ & Htr).
  exists w'. split_and!.
  - exact Hrun.
  - reflexivity.
  - rewrite Hch. apply lookup_insert_eq.
  - exact Hfresh.
  - exact Htr.
Defined.

(** ** Unread counts, continued *)

(** X25. A sendMessage from [A] to [B] changes one unread count only, the
    one [B] has for the conversation of [A] and [B]: the count of any
    viewer [X] for any contact [Y] stays as it is when their conversation
    is another one or when [X] is not the receiver (so a sender's own
    messages never count as unread for the sender, unless sent to
    oneself). *)
Theorem send_leaves_other_counts
    (w : world) (A B t : string) (ws : conn) (X Y : string) :
  getChatKey X Y ≠ getChatKey A B ∨ X ≠ B →
  ∃ w',
    handleSendMessage A B t ws w = (Done tt, w')
    ∧ unreadCount (db w') X Y = unreadCount (db w) X Y.
Proof.
  intros H.
  destruct (handleSendMessage_run w A B t ws) as (w' & Hrun & Hch & _).
  exists w'. split; [done|]. unfold unreadCount. rewrite Hch.
  destruct (decide (getChatKey A B = getChatKey X Y)) as [Hkey|Hkey].
  - destruct H as [?|HX]; [congruence|].
    rewrite <- Hkey, lookup_insert_eq. simpl.
    rewrite filter_app, filter_cons, decide_False, filter_nil, app_nil_r;
      [done|].
    unfold unread_for, message_of. simpl. intros [? _]. congruence.
  - by rewrite lookup_insert_ne.
Qed.

Lemma send_leaves_other_counts_witness :
  ∃ w',
    handleSendMessage "XYZ789" "ABC123" "hi" 7 Scenario.chatting
    = (Done tt, w')
    ∧ unreadCount (db w') "XYZ789" "ABC123"
      = unreadCount (db Scenario.chatting) "XYZ789" "ABC123".
Proof.
  apply (send_leaves_other_counts Scenario.chatting "XYZ789" "ABC123" "hi" 7
           "XYZ789" "ABC123").
  right. discriminate.
Defined.

Lemma filter_insert_drop {A} (P : A → Prop) `{∀ x, Decision (P x)}
    (l : list A) (k : nat) (x y : A) :
  l !! k = Some x → P x → ¬ P y →
  S (length (filter P (<[k := y]> l))) = length (filter P l).
Proof.
  intros Hk HPx HPy.
  rewrite <- (take_drop_middle l k x Hk) at 2.
  rewrite insert_take_drop by (by eapply lookup_lt_Some).
  rewrite !filter_app, !filter_cons, !length_app.
  destruct (decide (P y)), (decide (P x)); try done; simpl; lia.
Qed.

(** X26. A readMessage by the receiver of an unread message (identifiers
    being unique in the conversation) lowers the receiver's unread count
    for that contact by exactly one. *)
Theorem readMessage_lowers_unread_by_one
    (w : world) (R M C : string) (chat : list message) (k : nat)
    (m : message) :
  chats (db w) !! getChatKey R C = Some chat →
  NoDup (id <$> chat) →
  chat !! k = Some m →
  id m = M →
  read m = false →
  receiver m = R →
  ∃ w1,
    handleReadMessage R M C w = (Done tt, w1)
    ∧ S (unreadCount (db w1) R C) = unreadCount (db w) R C.
Proof.
  intros Hchat Hnd Hk <- Hread Hrecv.
  pose proof (list_find_NoDup_id chat k m Hnd Hk) as Hfind.
  destruct (handleReadMessage_mark w R (id m) C chat k m Hchat Hfind Hread)
    as (w1 & Hrun & Hch & _).
  exists w1. split; [done|]. unfold unreadCount.
  rewrite Hch, lookup_insert_eq, Hchat. simpl.
  apply (filter_insert_drop (unread_for R) chat k m); [done|done|].
  unfold unread_for. simpl. by intros [_ ?].
Qed.

Lemma readMessage_lowers_unread_by_one_witness :
  ∃ w1,
    handleReadMessage "XYZ789" "m-1" "ABC123" Scenario.chatting
    = (Done tt, w1)
    ∧ S (unreadCount (db w1) "XYZ789" "ABC123")
      = unreadCount (db Scenario.chatting) "XYZ789" "ABC123".
Proof.
  apply (readMessage_lowers_unread_by_one Scenario.chatting
           "XYZ789" "m-1" "ABC123" [Scenario.hello] 0 Scenario.hello);
    try reflexivity.
  simpl. apply NoDup_singleton.
Defined.
